(** * ECGQualityChecker: sliding-window quality grading of an ECG signal

    A shallow embedding of [src/ecg_quality/ECGQualityChecker.py] and the
    properties of its windowing, overlap aggregation and threshold
    reduction.

    Modelling conventions.
    - A numpy [float64] is a value of [f64]: not-a-number, the two
      infinities, or a finite value carried as an exact rational.  Rounding
      and the sign of zero are not modelled; everything the program decides
      by a comparison or by a division by zero is.
    - A Python exception is a value of [exn]; code that can raise lives in
      the error monad [M].
    - [process_signal] and its two loops are first given on a signal that
      is an array of floats, where every buffer is an array of floats as
      well.  [process_signal_typed] is the same code on a signal of any
      dtype: there the buffers of the sample-resolution loop inherit the
      dtype of the signal and convert what is stored into them.
    - [process_signal_h] is the same code once more, as a method on a
      store: names hold locations, arrays live in the store, and a slice
      assignment changes the array at a location.  It is what the
      statements about what a call changes, and about calls in a row,
      are made of.
    - Lengths, offsets and the stride are natural numbers.
    - The collaborators the module imports (the keys of the model
      registry, the loader of a model, the default thresholds, the stride
      resolution and the neurokit2 cleaner) are the fields of the class
      [Externals]; a loaded model is a [tf_model], its window length and
      the network that grades one window.
    - The loops also record, as [calls], the windows they hand to the
      network, so that statements can speak of the network being called. *)

From Stdlib Require Import QArith Qround ZArith Lia Lqa String.
From stdpp Require Import base list gmap.

Local Open Scope string_scope.
Local Open Scope nat_scope.

(** ** float64 values *)

Inductive f64 : Type :=
| NaN
| NInf
| PInf
| Fin (q : Q).

Module F64.

Definition zero : f64 := Fin 0.
Definition one : f64 := Fin 1.
Definition two : f64 := Fin 2.
Definition three : f64 := Fin 3.

Definition is_nan (x : f64) : bool :=
  match x with NaN => true | _ => false end.

Definition neg (x : f64) : f64 :=
  match x with
  | NaN => NaN
  | NInf => PInf
  | PInf => NInf
  | Fin q => Fin (- q)
  end.

Definition add (x y : f64) : f64 :=
  match x, y with
  | NaN, _ | _, NaN => NaN
  | PInf, NInf | NInf, PInf => NaN
  | PInf, _ | _, PInf => PInf
  | NInf, _ | _, NInf => NInf
  | Fin a, Fin b => Fin (a + b)
  end.

Definition sub (x y : f64) : f64 := add x (neg y).

(** [x < y]: false as soon as one side is not a number. *)
Definition ltb (x y : f64) : bool :=
  match x, y with
  | NaN, _ | _, NaN => false
  | _, NInf => false
  | NInf, _ => true
  | PInf, _ => false
  | _, PInf => true
  | Fin a, Fin b => negb (Qle_bool b a)
  end.

(** [x <= y]: false as soon as one side is not a number. *)
Definition leb (x y : f64) : bool :=
  match x, y with
  | NaN, _ | _, NaN => false
  | NInf, _ => true
  | _, NInf => false
  | _, PInf => true
  | PInf, _ => false
  | Fin a, Fin b => Qle_bool a b
  end.

(** Sign of a finite value as a comparison with zero. *)
Definition sign (q : Q) : comparison := (Qnum q ?= 0)%Z.

(** [np.divide] on two scalars, with the floating-point warnings
    silenced: [0/0] is not a number and [x/0] is an infinity. *)
Definition div (x y : f64) : f64 :=
  match x, y with
  | NaN, _ | _, NaN => NaN
  | (PInf | NInf), (PInf | NInf) => NaN
  | PInf, Fin b => match sign b with Lt => NInf | _ => PInf end
  | NInf, Fin b => match sign b with Lt => PInf | _ => NInf end
  | Fin _, (PInf | NInf) => Fin 0
  | Fin a, Fin b =>
      match sign b with
      | Eq => match sign a with Eq => NaN | Gt => PInf | Lt => NInf end
      | _ => Fin (a / b)
      end
  end.

(** The smaller and the larger of two values as [np.min] and [np.max]
    fold them: a not-a-number operand wins. *)
Definition min (x y : f64) : f64 :=
  if is_nan x then x else if is_nan y then y else if ltb y x then y else x.

Definition max (x y : f64) : f64 :=
  if is_nan x then x else if is_nan y then y else if ltb x y then y else x.

(** A finite value of the closed interval from 0 to 1. *)
Definition in_unit (x : f64) : Prop :=
  match x with
  | Fin q => (0 <= q /\ q <= 1)%Q
  | _ => False
  end.

End F64.

(** ** Exceptions and the error monad *)

Inductive exn : Type :=
| ValueError (msg : string)
| TypeError (msg : string)
| IndexError (msg : string)
| ZeroDivisionError (msg : string)
| NotImplementedError (msg : string).

Definition M (A : Type) : Type := exn + A.

Definition ret {A} (a : A) : M A := inr a.
Definition raise {A} (e : exn) : M A := inl e.

Definition bind {A B} (m : M A) (k : A -> M B) : M B :=
  match m with
  | inl e => inl e
  | inr a => k a
  end.

Notation "'let!' x ':=' m 'in' k" := (bind m (fun x => k))
  (at level 10, x name, m at level 100, k at level 200).

(** A list comprehension whose body may raise: elements are evaluated left
    to right and the first exception aborts the comprehension. *)
Fixpoint comprehension {A B} (f : A -> M B) (l : list A) : M (list B) :=
  match l with
  | [] => ret []
  | x :: l' =>
      let! y := f x in
      let! ys := comprehension f l' in
      ret (y :: ys)
  end.

(** A [for] loop over a list of values whose body may raise. *)
Fixpoint for_each {S A} (body : S -> A -> M S) (l : list A) (s : S) : M S :=
  match l with
  | [] => ret s
  | x :: l' => let! s' := body s x in for_each body l' s'
  end.

(** ** The numpy and Python primitives the module uses *)

Module Np.

(** [np.zeros(n)] *)
Definition zeros (n : nat) : list f64 := replicate n F64.zero.

(** [np.zeros_like(a)] for an array of floats. *)
Definition zeros_like (a : list f64) : list f64 := zeros (length a).

(** [a[i:j]] for non-negative bounds; bounds past the end are clipped. *)
Definition slice {A} (a : list A) (i j : nat) : list A :=
  take (j - i) (drop i a).

(** [a[i:j] = v] where [v] has the shape of [a[i:j]]; every use below
    assigns the slice itself plus a scalar, so the shapes agree. *)
Definition set_slice {A} (a : list A) (i j : nat) (v : list A) : list A :=
  take i a ++ v ++ drop (i + length v) a.

(** [a + s] for a scalar [s]. *)
Definition add_scalar (a : list f64) (s : f64) : list f64 :=
  (fun x => F64.add x s) <$> a.

(** [np.divide(a, b)] on arrays of one shape. *)
Definition divide (a b : list f64) : list f64 := zip_with F64.div a b.

Definition empty_reduction (name : string) : exn :=
  ValueError (String.append "zero-size array to reduction operation "
                (String.append name " which has no identity")).

(** [np.min(a)] *)
Definition min (a : list f64) : M f64 :=
  match a with
  | [] => raise (empty_reduction "minimum")
  | x :: a' => ret (foldl F64.min x a')
  end.

(** [np.max(a)] *)
Definition max (a : list f64) : M f64 :=
  match a with
  | [] => raise (empty_reduction "maximum")
  | x :: a' => ret (foldl F64.max x a')
  end.

(** The order [np.sort] sorts by: ascending, not-a-number values last. *)
Definition before (x y : f64) : bool := F64.is_nan y || F64.leb x y.

Fixpoint insert_sorted (x : f64) (a : list f64) : list f64 :=
  match a with
  | [] => [x]
  | y :: a' => if before x y then x :: y :: a' else y :: insert_sorted x a'
  end.

(** [np.sort(a)] *)
Definition sort (a : list f64) : list f64 := foldr insert_sorted [] a.

End Np.

(** [range(0, stop, step)] for a step that is not negative: the multiples
    of [step] below [stop].  A zero step raises. *)
Definition range0 (stop : Z) (step : nat) : M (list nat) :=
  if step =? 0 then raise (ValueError "range() arg 3 must not be zero")
  else
    let n := Z.to_nat ((stop + Z.of_nat step - 1) / Z.of_nat step) in
    ret ((fun k => k * step) <$> seq 0 n).

(** [n // d] on non-negative integers. *)
Definition floordiv (n d : nat) : M nat :=
  if d =? 0 then raise (ZeroDivisionError "integer division or modulo by zero")
  else ret (n / d).

(** [l[i]] on a Python list. *)
Definition getitem {A} (l : list A) (i : nat) : M A :=
  match l !! i with
  | Some x => ret x
  | None => raise (IndexError "list index out of range")
  end.

(** [s in l] on a list of strings. *)
Definition py_in (s : string) (l : list string) : bool :=
  existsb (String.eqb s) l.

(** ** Data model *)

(** The four values [return_mode] may take and the two of [return_type]. *)
Inductive ReturnMode : Type := score | three_value | binary_clean | binary_qrs.
Inductive ReturnType : Type := full | intervals.

(** The object [tf_model.tf_model(name)] returns: a window length and the
    network that grades one window. *)
Record tf_model : Type := {
  get_input_length : nat;
  process_ecg : list f64 -> f64
}.

(** What a caller may pass as [thresholds]: nothing, one bare float, or a
    list of floats. *)
Inductive thresholds_arg : Type :=
| TNone
| TFloat (t : f64)
| TList (l : list f64).

(** The attributes [__init__] stores on the object. *)
Record ECGQualityChecker : Type := {
  model : tf_model;
  input_length : nat;
  stride : nat;
  return_mode : ReturnMode;
  return_type : ReturnType;
  thresholds : thresholds_arg;
  sampling_rate : Z;
  clean_data : bool;
  check_window : bool;
  min_window : f64
}.

(** The imported collaborators. *)
Class Externals : Type := {
  (** [list(MODEL_PATH_DICT.keys())] *)
  MODEL_PATH_DICT : list string;
  (** [tf_model.tf_model(model)] *)
  load_tf_model : string -> tf_model;
  (** [utils.get_default_thresholds(model, return_mode)] *)
  get_default_thresholds : string -> string -> thresholds_arg;
  (** [utils.get_stride_length(input_length, stride, sampling_rate)] *)
  get_stride_length : nat -> f64 -> Z -> nat;
  (** [nk.ecg_clean(signal, sampling_rate=...)] *)
  ecg_clean : list f64 -> Z -> list f64
}.

(** ** The constructor *)

Definition parse_return_mode (s : string) : option ReturnMode :=
  if String.eqb s "score" then Some score
  else if String.eqb s "three_value" then Some three_value
  else if String.eqb s "binary_clean" then Some binary_clean
  else if String.eqb s "binary_qrs" then Some binary_qrs
  else None.

Definition parse_return_type (s : string) : option ReturnType :=
  if String.eqb s "intervals" then Some intervals
  else if String.eqb s "full" then Some full
  else None.

Definition threshold_count_error : exn :=
  ValueError "Threshold count does not correspond to return mode".

Definition threshold_range_error : exn :=
  ValueError "Threshold value not in 0 to 1 interval".

(** [0 <= t <= 1.0] *)
Definition in_0_1 (t : f64) : bool := F64.leb F64.zero t && F64.leb t F64.one.

(** [len(thresholds)] *)
Definition thresholds_len (thresholds : thresholds_arg) : M nat :=
  match thresholds with
  | TNone => raise (TypeError "object of type 'NoneType' has no len()")
  | TFloat _ => raise (TypeError "object of type 'float' has no len()")
  | TList l => ret (length l)
  end.

(** [thresholds[i]], reached only after [len(thresholds)] has returned. *)
Definition thresholds_item (thresholds : thresholds_arg) (i : nat) : M f64 :=
  match thresholds with
  | TNone => raise (TypeError "'NoneType' object is not subscriptable")
  | TFloat _ => raise (TypeError "'float' object is not subscriptable")
  | TList l => getitem l i
  end.

(** [np.sort(thresholds)]; a value without an axis cannot be sorted. *)
Definition sort_thresholds (thresholds : thresholds_arg) : M thresholds_arg :=
  match thresholds with
  | TList l => ret (TList (Np.sort l))
  | _ => raise (ValueError "axis -1 is out of bounds for array of dimension 0")
  end.

(** Lines 107 to 122 of the constructor: the arity and range rules of the
    thresholds for the chosen mode.  The result is the value that will be
    stored: [None], a list, or the sorted array. *)
Definition check_thresholds (mode : ReturnMode) (thresholds : thresholds_arg)
  : M thresholds_arg :=
  match mode with
  | score =>
      match thresholds with
      | TNone => ret TNone
      | _ => raise threshold_count_error
      end
  | binary_clean | binary_qrs =>
      let thresholds :=
        match thresholds with TFloat t => TList [t] | _ => thresholds end in
      let! n := thresholds_len thresholds in
      if negb (n =? 1) then raise threshold_count_error
      else
        let! t0 := thresholds_item thresholds 0 in
        if negb (in_0_1 t0) then raise threshold_range_error
        else ret thresholds
  | three_value =>
      let! n := thresholds_len thresholds in
      if negb (n =? 2) then raise threshold_count_error
      else
        let! t0 := thresholds_item thresholds 0 in
        if negb (in_0_1 t0) then raise threshold_range_error
        else
          let! t1 := thresholds_item thresholds 1 in
          if negb (in_0_1 t1) then raise threshold_range_error
          else sort_thresholds thresholds
  end.

Definition __init__ `{ext : Externals}
  (model : string) (stride : f64) (return_mode : string)
  (thresholds : thresholds_arg) (return_type : string) (sampling_rate : Z)
  (clean_data check_window_range : bool) (window_min_range : f64)
  : M ECGQualityChecker :=
  if negb (py_in model MODEL_PATH_DICT) then
    raise (ValueError
             (String.append model " is not a known model that can be used"))
  else
  match parse_return_mode return_mode with
  | None =>
      raise (ValueError
               (String.append "Return mode needs to be one of: score, three_value, binary_clean, binary_qrs. Currently is "
                  return_mode))
  | Some mode =>
  let thresholds :=
    match thresholds with
    | TNone => get_default_thresholds model return_mode
    | _ => thresholds
    end in
  let! thresholds := check_thresholds mode thresholds in
  match parse_return_type return_type with
  | None =>
      raise (ValueError
               (String.append "Return type needs to be one of: intervals, full. Currently is "
                  return_type))
  | Some rtype =>
  if negb (sampling_rate =? 250)%Z then
    raise (NotImplementedError "This class currently only support ECG with frequency of 250 Hz. Consider modyfing your data to comply with this prerequisite.")
  else if F64.ltb stride F64.zero then
    raise (ValueError "Stride for a model can not be negative")
  else
    let m := load_tf_model model in
    ret {| model := m;
           input_length := get_input_length m;
           stride := get_stride_length (get_input_length m) stride sampling_rate;
           return_mode := mode;
           return_type := rtype;
           thresholds := thresholds;
           sampling_rate := sampling_rate;
           clean_data := clean_data;
           check_window := check_window_range;
           min_window := window_min_range |}
  end
  end.

(** ** Processing a signal *)

Notation "'let!' ' pat ':=' m 'in' k" :=
  (bind m (fun x => match x with pat => k end))
  (at level 10, pat pattern, m at level 100, k at level 200).

(** The accumulation buffers of one call, together with the windows handed
    to the network so far (oldest first). *)
Record buffers : Type := {
  output : list f64;
  win_count : list f64;
  calls : list (list f64)
}.

Section Processing.

Context `{ext : Externals}.

Definition _check_window_smaller (self : ECGQualityChecker)
  (window_signal : list f64) : M bool :=
  let! minimum := Np.min window_signal in
  let! maximum := Np.max window_signal in
  let range := F64.sub maximum minimum in
  ret (F64.ltb range (min_window self)).

(** The right-hand side of [score = ...] on lines 193 and 210, with the
    windows it passes to the network. *)
Definition window_score (self : ECGQualityChecker) (window : list f64)
  : M (f64 * list (list f64)) :=
  let! smaller := _check_window_smaller self window in
  if smaller then ret (F64.one, [])
  else ret (process_ecg (model self) window, [window]).

(** The two slice updates that end the body of either loop. *)
Definition accumulate (st : buffers) (a b : nat) (s : f64)
  (invoked : list (list f64)) : buffers :=
  {| output :=
       Np.set_slice (output st) a b
         (Np.add_scalar (Np.slice (output st) a b) s);
     win_count :=
       Np.set_slice (win_count st) a b
         (Np.add_scalar (Np.slice (win_count st) a b) F64.one);
     calls := calls st ++ invoked |}.

(** [signal] after the optional cleaning. *)
Definition cleaned (self : ECGQualityChecker) (signal : list f64)
  : list f64 :=
  if clean_data self then ecg_clean signal (sampling_rate self) else signal.

(** The window plan: [range(0, len(signal) - input_length + 1, stride)]. *)
Definition window_plan (self : ECGQualityChecker) (signal : list f64)
  : M (list nat) :=
  range0 (Z.of_nat (length signal) - Z.of_nat (input_length self) + 1)
    (stride self).

Definition full_body (self : ECGQualityChecker) (signal : list f64)
  (st : buffers) (win_start : nat) : M buffers :=
  let window := Np.slice signal win_start (win_start + input_length self) in
  let! '(s, invoked) := window_score self window in
  ret (accumulate st win_start (win_start + input_length self) s invoked).

(** [_process_signal_full] up to the end of its loop. *)
Definition full_loop (self : ECGQualityChecker) (signal : list f64)
  : M buffers :=
  let signal := cleaned self signal in
  let output := Np.zeros_like signal in
  let win_count := Np.zeros_like signal in
  let! plan := window_plan self signal in
  for_each (full_body self signal) plan
    {| output := output; win_count := win_count; calls := [] |}.

Definition interval_body (self : ECGQualityChecker) (signal : list f64)
  (st : buffers) (win_start : nat) : M buffers :=
  let! a := floordiv win_start (stride self) in
  let! b := floordiv (win_start + input_length self) (stride self) in
  let window := Np.slice signal win_start (win_start + input_length self) in
  let! '(s, invoked) := window_score self window in
  ret (accumulate st a b s invoked).

(** [_process_signal_interval] up to the end of its loop. *)
Definition interval_loop (self : ECGQualityChecker) (signal : list f64)
  : M buffers :=
  let signal := cleaned self signal in
  let! n := floordiv (length signal) (stride self) in
  let output := Np.zeros n in
  let! n' := floordiv (length signal) (stride self) in
  let win_count := Np.zeros n' in
  let! plan := window_plan self signal in
  for_each (interval_body self signal) plan
    {| output := output; win_count := win_count; calls := [] |}.

Definition _get_binary (self : ECGQualityChecker) (scores : list f64)
  : M (list f64) :=
  comprehension
    (fun x =>
       let! t0 := thresholds_item (thresholds self) 0 in
       ret (if F64.ltb x t0 then F64.one else F64.two))
    scores.

Definition _get_three_value (self : ECGQualityChecker) (scores : list f64)
  : M (list f64) :=
  let mapper (val : f64) : M f64 :=
    let! t0 := thresholds_item (thresholds self) 0 in
    if F64.ltb val t0 then ret F64.one
    else
      let! t1 := thresholds_item (thresholds self) 1 in
      if F64.ltb val t1 then ret F64.two
      else ret F64.three in
  comprehension mapper scores.

Definition _calc_precise_scores (self : ECGQualityChecker)
  (scores win_counts : list f64) : M (list f64) :=
  let scores := Np.divide scores win_counts in
  match return_mode self with
  | score => ret scores
  | binary_clean | binary_qrs => _get_binary self scores
  | three_value => _get_three_value self scores
  end.

Definition _process_signal_full (self : ECGQualityChecker)
  (signal : list f64) : M (list f64) :=
  let! st := full_loop self signal in
  _calc_precise_scores self (output st) (win_count st).

Definition _process_signal_interval (self : ECGQualityChecker)
  (signal : list f64) : M (list f64) :=
  let! st := interval_loop self signal in
  _calc_precise_scores self (output st) (win_count st).

Definition process_signal (self : ECGQualityChecker) (signal : list f64)
  : M (list f64) :=
  match return_type self with
  | full => _process_signal_full self signal
  | intervals => _process_signal_interval self signal
  end.

(** The buffers and the network calls of the loop [process_signal] runs. *)
Definition process_loop (self : ECGQualityChecker) (signal : list f64)
  : M buffers :=
  match return_type self with
  | full => full_loop self signal
  | intervals => interval_loop self signal
  end.

End Processing.

(** ** Arrays with a dtype

    [np.zeros_like(signal)] gives the buffers of the sample-resolution
    loop the dtype of the signal, and an assignment into an array converts
    the assigned values to the dtype of the array.  A dtype is [float64],
    which stores a float as it is, or another dtype, given by the
    conversion it applies to a float that is stored into it (truncation
    for an integer dtype). *)

Inductive dtype : Type :=
| float64
| other (cast : f64 -> f64).

Record ndarray : Type := {
  dtype_of : dtype;
  data : list f64
}.

(** The value an array of dtype [dt] holds after [x] is assigned to one of
    its positions. *)
Definition astype (dt : dtype) (x : f64) : f64 :=
  match dt with
  | float64 => x
  | other cast => cast x
  end.

(** What an integer dtype holds after a finite value is stored into it:
    the whole part, the fraction dropped.  What it holds after a value
    that is not finite is left as it is. *)
Definition int_cast (x : f64) : f64 :=
  match x with
  | Fin q => Fin (inject_Z (Z.quot (Qnum q) (Z.pos (Qden q))))
  | _ => x
  end.

(** [np.zeros_like(a)]: zeros of the shape and of the dtype of [a]. *)
Definition zeros_like (a : ndarray) : ndarray :=
  {| dtype_of := dtype_of a; data := Np.zeros (length (data a)) |}.

(** [a[i:j] = v] for a float array [v] of the shape of the slice. *)
Definition assign_slice (a : ndarray) (i j : nat) (v : list f64) : ndarray :=
  {| dtype_of := dtype_of a;
     data := Np.set_slice (data a) i j (astype (dtype_of a) <$> v) |}.

Section TypedProcessing.

Context `{ext : Externals}.

(** The two slice updates on buffers of dtype [dt]. *)
Definition accumulate_typed (dt : dtype) (st : buffers) (a b : nat) (s : f64)
  (invoked : list (list f64)) : buffers :=
  {| output :=
       Np.set_slice (output st) a b
         (astype dt <$> Np.add_scalar (Np.slice (output st) a b) s);
     win_count :=
       Np.set_slice (win_count st) a b
         (astype dt <$> Np.add_scalar (Np.slice (win_count st) a b) F64.one);
     calls := calls st ++ invoked |}.

(** [signal] after the optional cleaning; the cleaner returns floats. *)
Definition cleaned_typed (self : ECGQualityChecker) (signal : ndarray)
  : ndarray :=
  if clean_data self then
    {| dtype_of := float64;
       data := ecg_clean (data signal) (sampling_rate self) |}
  else signal.

Definition full_body_typed (self : ECGQualityChecker) (signal : ndarray)
  (st : buffers) (win_start : nat) : M buffers :=
  let window :=
    Np.slice (data signal) win_start (win_start + input_length self) in
  let! '(s, invoked) := window_score self window in
  ret (accumulate_typed (dtype_of signal) st win_start
         (win_start + input_length self) s invoked).

(** [_process_signal_full] up to the end of its loop, on a signal of any
    dtype; the buffers have the dtype of the signal the loop runs on. *)
Definition full_loop_typed (self : ECGQualityChecker) (signal : ndarray)
  : M buffers :=
  let signal := cleaned_typed self signal in
  let output := zeros_like signal in
  let win_count := zeros_like signal in
  let! plan := window_plan self (data signal) in
  for_each (full_body_typed self signal) plan
    {| output := data output; win_count := data win_count; calls := [] |}.

(** [process_signal] on a signal of any dtype.  The interval-resolution
    loop allocates its buffers with [np.zeros], which are floats whatever
    the signal is. *)
Definition process_signal_typed (self : ECGQualityChecker)
  (signal : ndarray) : M (list f64) :=
  match return_type self with
  | full =>
      let! st := full_loop_typed self signal in
      _calc_precise_scores self (output st) (win_count st)
  | intervals => _process_signal_interval self (data signal)
  end.

End TypedProcessing.

(** ** The object and the arrays in a store

    To speak of what a call changes, the arrays live in a store: a name
    holds a location and an array is reached through it, so that two
    names may share one array and an assignment into an array is seen
    through every name that holds it.  A world is the attributes of the
    object and the store.  A method is a function on worlds that also
    returns its value or the exception it raises. *)

(** A location of the store. *)
Abbreviation loc := nat (only parsing).

Record world : Type := {
  attrs : ECGQualityChecker;
  arrays : gmap loc ndarray
}.

Definition Call (A : Type) : Type := world -> (exn + A) * world.

Definition hret {A} (a : A) : Call A := fun w => (inr a, w).

Definition hbind {A B} (m : Call A) (k : A -> Call B) : Call B :=
  fun w =>
    match m w with
    | (inl e, w') => (inl e, w')
    | (inr a, w') => k a w'
    end.

Notation "'run!' x ':=' m 'in' k" := (hbind m (fun x => k))
  (at level 10, x name, m at level 100, k at level 200).

(** A computation that touches neither the object nor the store. *)
Definition lift {A} (m : M A) : Call A := fun w => (m, w).

(** [self]: the attributes as they are now. *)
Definition get_attrs : Call ECGQualityChecker := fun w => (inr (attrs w), w).

(** A new array, at a location that holds none. *)
Definition alloc (a : ndarray) : Call loc :=
  fun w =>
    let l := fresh (dom (arrays w)) in
    (inr l, {| attrs := attrs w; arrays := <[l:=a]> (arrays w) |}).

#[export] Instance ndarray_inhabited : Inhabited ndarray :=
  populate {| dtype_of := float64; data := [] |}.

(** The array a name holds. *)
Definition load (l : loc) : Call ndarray := fun w => (inr (arrays w !!! l), w).

(** An assignment into the array a name holds. *)
Definition store (l : loc) (a : ndarray) : Call unit :=
  fun w => (inr tt, {| attrs := attrs w; arrays := <[l:=a]> (arrays w) |}).

(** A [for] loop over a list of values. *)
Fixpoint hfor {A} (body : A -> Call unit) (l : list A) : Call unit :=
  match l with
  | [] => hret tt
  | x :: l' => run! _u := body x in hfor body l'
  end.

Section StoreProcessing.

Context `{ext : Externals}.

(** [signal = nk.ecg_clean(signal, ...)] under [if self.clean_data]: the
    name is bound to a new array, or keeps the caller's. *)
Definition clean_h (signal : loc) : Call loc :=
  run! self := get_attrs in
  if clean_data self then
    run! a := load signal in
    alloc {| dtype_of := float64;
             data := ecg_clean (data a) (sampling_rate self) |}
  else hret signal.

(** The two slice assignments that end the body of either loop. *)
Definition accumulate_h (output win_count : loc) (a b : nat) (s : f64)
  : Call unit :=
  run! o := load output in
  run! _u := store output
               (assign_slice o a b (Np.add_scalar (Np.slice (data o) a b) s)) in
  run! c := load win_count in
  store win_count
    (assign_slice c a b (Np.add_scalar (Np.slice (data c) a b) F64.one)).

Definition full_body_h (signal output win_count : loc) (win_start : nat)
  : Call unit :=
  run! self := get_attrs in
  run! sig := load signal in
  run! r := lift (window_score self
                    (Np.slice (data sig) win_start
                       (win_start + input_length self))) in
  accumulate_h output win_count win_start (win_start + input_length self)
    r.1.

Definition _process_signal_full_h (signal : loc) : Call loc :=
  run! signal := clean_h signal in
  run! sig := load signal in
  run! output := alloc (zeros_like sig) in
  run! win_count := alloc (zeros_like sig) in
  run! self := get_attrs in
  run! plan := lift (window_plan self (data sig)) in
  run! _u := hfor (full_body_h signal output win_count) plan in
  run! o := load output in
  run! c := load win_count in
  run! res := lift (_calc_precise_scores self (data o) (data c)) in
  alloc {| dtype_of := float64; data := res |}.

Definition interval_body_h (signal output win_count : loc) (win_start : nat)
  : Call unit :=
  run! self := get_attrs in
  run! a := lift (floordiv win_start (stride self)) in
  run! b := lift (floordiv (win_start + input_length self) (stride self)) in
  run! sig := load signal in
  run! r := lift (window_score self
                    (Np.slice (data sig) win_start
                       (win_start + input_length self))) in
  accumulate_h output win_count a b r.1.

Definition _process_signal_interval_h (signal : loc) : Call loc :=
  run! signal := clean_h signal in
  run! sig := load signal in
  run! self := get_attrs in
  run! n := lift (floordiv (length (data sig)) (stride self)) in
  run! output := alloc {| dtype_of := float64; data := Np.zeros n |} in
  run! n' := lift (floordiv (length (data sig)) (stride self)) in
  run! win_count := alloc {| dtype_of := float64; data := Np.zeros n' |} in
  run! plan := lift (window_plan self (data sig)) in
  run! _u := hfor (interval_body_h signal output win_count) plan in
  run! o := load output in
  run! c := load win_count in
  run! res := lift (_calc_precise_scores self (data o) (data c)) in
  alloc {| dtype_of := float64; data := res |}.

(** [process_signal] as a method: it receives the location of the
    caller's signal and returns the location of a new array of floats
    (the array of scores, or the list of categories). *)
Definition process_signal_h (signal : loc) : Call loc :=
  run! self := get_attrs in
  match return_type self with
  | full => _process_signal_full_h signal
  | intervals => _process_signal_interval_h signal
  end.

End StoreProcessing.

(** ** A small test bench

    Collaborators with short windows, used to run the definitions on
    concrete signals: the network grades every window the same, the
    cleaner returns its input, the stride is a fixed sample count. *)

Module Bench.

Definition constant_model (L : nat) (s : f64) : tf_model :=
  {| get_input_length := L; process_ecg := fun _ => s |}.

Definition externals (L S : nat) (s : f64) (defaults : thresholds_arg)
  : Externals :=
  {| MODEL_PATH_DICT := ["cnn2s"; "cnn5s"; "lstm2s"; "oscnn2s"];
     load_tf_model := fun _ => constant_model L s;
     get_default_thresholds := fun _ _ => defaults;
     get_stride_length := fun _ _ _ => S;
     ecg_clean := fun signal _ => signal |}.

Definition checker (L S : nat) (s : f64) (mode : ReturnMode)
  (rtype : ReturnType) (th : thresholds_arg) (check : bool) (range : f64)
  : ECGQualityChecker :=
  {| model := constant_model L s;
     input_length := L;
     stride := S;
     return_mode := mode;
     return_type := rtype;
     thresholds := th;
     sampling_rate := 250;
     clean_data := false;
     check_window := check;
     min_window := range |}.

(** A signal that alternates between -1 and 1. *)
Fixpoint zigzag (n : nat) : list f64 :=
  match n with
  | O => []
  | S n' => Fin (if Nat.even n' then 1 else -1) :: zigzag n'
  end.

(** A signal that is 0 throughout. *)
Definition flat (n : nat) : list f64 := replicate n F64.zero.

Definition half : f64 := Fin (1 # 2).
Definition tenth : f64 := Fin (1 # 10).
Definition three_quarters : f64 := Fin (3 # 4).

(** Windows of 4 samples every 2 samples, a network that answers 0.5, no
    default thresholds. *)
Definition lab : Externals := externals 4 2 half TNone.

(** Windows of 500 samples (2 s at 250 Hz) every 250 samples, the sizes
    of the 2-second models. *)
Definition clinic : Externals := externals 500 250 half TNone.

Definition clinic_checker (mode : ReturnMode) (rtype : ReturnType)
  (th : thresholds_arg) : ECGQualityChecker :=
  checker 500 250 half mode rtype th true tenth.

(** The object of the lab for a mode, a granularity and thresholds, with
    the range check on and a minimum range of 0.1. *)
Definition lab_checker (mode : ReturnMode) (rtype : ReturnType)
  (th : thresholds_arg) : ECGQualityChecker :=
  checker 4 2 half mode rtype th true tenth.

End Bench.

(** ** Vocabulary of the statements *)

(** What the stored configuration must satisfy for [process_signal] to run:
    a positive window length and stride, and thresholds whose number fits
    the mode, each between 0 and 1, in ascending order. *)
Definition valid_thresholds (mode : ReturnMode) (th : thresholds_arg) : Prop :=
  match mode with
  | score => th = TNone
  | binary_clean | binary_qrs => exists t, th = TList [t] /\ F64.in_unit t
  | three_value =>
      exists t0 t1, th = TList [t0; t1] /\ F64.in_unit t0 /\ F64.in_unit t1
                    /\ F64.leb t0 t1 = true
  end.

Definition valid_config (self : ECGQualityChecker) : Prop :=
  0 < input_length self /\ 0 < stride self
  /\ valid_thresholds (return_mode self) (thresholds self).

(** The length of the accumulation buffers. *)
Definition buffer_length `{ext : Externals} (self : ECGQualityChecker)
  (signal : list f64) : nat :=
  match return_type self with
  | full => length (cleaned self signal)
  | intervals => length (cleaned self signal) / stride self
  end.

(** The buffers before the first window. *)
Definition initial_buffers (n : nat) : buffers :=
  {| output := Np.zeros n; win_count := Np.zeros n; calls := [] |}.

(** What a position no window covers is reported as. *)
Definition uncovered_value (mode : ReturnMode) : f64 :=
  match mode with
  | score => NaN
  | binary_clean | binary_qrs => F64.two
  | three_value => F64.three
  end.

(** The thresholds the constructor accepts for a mode, with the value it
    stores. *)
Definition accepts (mode : ReturnMode) (th stored : thresholds_arg) : Prop :=
  match mode with
  | score => th = TNone /\ stored = TNone
  | binary_clean | binary_qrs =>
      exists t, (th = TFloat t \/ th = TList [t]) /\ F64.in_unit t
                /\ stored = TList [t]
  | three_value =>
      exists t0 t1, th = TList [t0; t1] /\ F64.in_unit t0 /\ F64.in_unit t1
                    /\ stored = TList (if F64.leb t0 t1 then [t0; t1]
                                       else [t1; t0])
  end.

(** The arity and range rule as the specification words it: no thresholds
    or an empty list in score mode, one value between 0 and 1 in a binary
    mode, two such values in three-value mode. *)
Definition spec_threshold_rule (mode : ReturnMode) (th : thresholds_arg)
  : Prop :=
  match mode with
  | score => th = TNone \/ th = TList []
  | binary_clean | binary_qrs => exists t, th = TList [t] /\ F64.in_unit t
  | three_value =>
      exists t0 t1, th = TList [t0; t1] /\ F64.in_unit t0 /\ F64.in_unit t1
  end.

(** The world in the middle of a loop: the attributes [self], the store
    [base] the loop found, and over it the two buffers, of dtype [dt],
    holding the sums and the counts of [st]. *)
Definition buffered (self : ECGQualityChecker) (base : gmap loc ndarray)
  (out cnt : loc) (dt : dtype) (st : buffers) : world :=
  {| attrs := self;
     arrays :=
       <[cnt := {| dtype_of := dt; data := win_count st |}]>
         (<[out := {| dtype_of := dt; data := output st |}]>
            base) |}.

(** What a call that follows the computation [pure] on values leaves
    behind: the attributes as they were, every array of the store as it
    was, and either the exception of [pure] or a new array of floats that
    holds the result of [pure]. *)
Definition call_spec (w : world) (pure : M (list f64))
  (out : (exn + loc) * world) : Prop :=
  attrs out.2 = attrs w
  /\ arrays w ⊆ arrays out.2
  /\ match pure with
     | inl e => out.1 = inl e
     | inr res =>
         exists r, out.1 = inr r
                   /\ arrays w !! r = None
                   /\ arrays out.2 !! r
                      = Some {| dtype_of := float64; data := res |}
     end.

(** The two reductions with the thresholds already read. *)
Definition binary_of (t0 x : f64) : f64 :=
  if F64.ltb x t0 then F64.one else F64.two.

Definition mapper_of (t0 t1 val : f64) : f64 :=
  if F64.ltb val t0 then F64.one
  else if F64.ltb val t1 then F64.two
  else F64.three.

(** The score of the window that starts at [start]. *)
Definition score_at (self : ECGQualityChecker)
  (signal : list f64) (start : nat) : f64 :=
  match window_score self
          (Np.slice signal start (start + input_length self)) with
  | inr (s, _) => s
  | inl _ => NaN
  end.

(** Whether interval [k] lies in the range of the window at [start]:
    [start // stride <= k < (start + input_length) // stride]. *)
Definition covers (self : ECGQualityChecker) (start k : nat) : bool :=
  bool_decide (start / stride self <= k
               < (start + input_length self) / stride self).

(** The same object with another return mode. *)
Definition with_return_mode (mode : ReturnMode) (self : ECGQualityChecker)
  : ECGQualityChecker :=
  {| model := model self;
     input_length := input_length self;
     stride := stride self;
     return_mode := mode;
     return_type := return_type self;
     thresholds := thresholds self;
     sampling_rate := sampling_rate self;
     clean_data := clean_data self;
     check_window := check_window self;
     min_window := min_window self |}.

(** The thresholds the constructor validates: the caller's, or the
    registry's defaults when the caller passes none. *)
Definition effective_thresholds `{ext : Externals} (model return_mode : string)
  (thresholds : thresholds_arg) : thresholds_arg :=
  match thresholds with
  | TNone => get_default_thresholds model return_mode
  | _ => thresholds
  end.

(** A position is either untouched, with sum and count still the zero
    they were allocated with, or its count is at least 1. *)
Definition untouched_or_counted (n : nat) (st : buffers) : Prop :=
  forall k, k < n ->
    (win_count st !! k = Some F64.zero /\ output st !! k = Some F64.zero)
    \/ (exists c, win_count st !! k = Some (Fin c) /\ (1 <= c)%Q).

(** Every sum is a finite value between 0 and its count. *)
Definition sums_bounded (n : nat) (st : buffers) : Prop :=
  forall k, k < n ->
    exists s c, output st !! k = Some (Fin s) /\ win_count st !! k = Some (Fin c)
                /\ (0 <= s)%Q /\ (s <= c)%Q.

(** The window that starts at [start], and the windows the scorer hands to
    the network when it is run on it. *)
Definition window_at (self : ECGQualityChecker) (signal : list f64)
  (start : nat) : list f64 :=
  Np.slice signal start (start + input_length self).

Definition invoked_at (self : ECGQualityChecker) (signal : list f64)
  (start : nat) : list (list f64) :=
  match window_score self (window_at self signal start) with
  | inr (_, invoked) => invoked
  | inl _ => []
  end.

(** Whether sample [i] lies in the window at [start]:
    [start <= i < start + input_length]. *)
Definition covers_full (self : ECGQualityChecker) (start i : nat) : bool :=
  bool_decide (start <= i < start + input_length self).

(** The same object with another return type, and with another return
    mode and thresholds. *)
Definition with_return_type (rtype : ReturnType) (self : ECGQualityChecker)
  : ECGQualityChecker :=
  {| model := model self;
     input_length := input_length self;
     stride := stride self;
     return_mode := return_mode self;
     return_type := rtype;
     thresholds := thresholds self;
     sampling_rate := sampling_rate self;
     clean_data := clean_data self;
     check_window := check_window self;
     min_window := min_window self |}.

Definition with_thresholds (mode : ReturnMode) (th : thresholds_arg)
  (self : ECGQualityChecker) : ECGQualityChecker :=
  {| model := model self;
     input_length := input_length self;
     stride := stride self;
     return_mode := mode;
     return_type := return_type self;
     thresholds := th;
     sampling_rate := sampling_rate self;
     clean_data := clean_data self;
     check_window := check_window self;
     min_window := min_window self |}.

(** What the mapper applies to every mean, for the mode and the thresholds
    of the object. *)
Definition reduction (self : ECGQualityChecker) (m : f64) : f64 :=
  match return_mode self, thresholds self with
  | score, _ => m
  | (binary_clean | binary_qrs), TList (t0 :: _) => binary_of t0 m
  | three_value, TList (t0 :: t1 :: _) => mapper_of t0 t1 m
  | _, _ => m
  end.

(** The same object with another network behind its model. *)
Definition with_network (net : list f64 -> f64) (self : ECGQualityChecker)
  : ECGQualityChecker :=
  {| model := {| get_input_length := get_input_length (model self);
                 process_ecg := net |};
     input_length := input_length self;
     stride := stride self;
     return_mode := return_mode self;
     return_type := return_type self;
     thresholds := thresholds self;
     sampling_rate := sampling_rate self;
     clean_data := clean_data self;
     check_window := check_window self;
     min_window := min_window self |}.

(** A conversion that stores a value from 0 up to but not including 1 as
    0, as the conversion to an integer dtype does. *)
Definition drops_fraction (cast : f64 -> f64) : Prop :=
  forall x : Q, (0 <= x)%Q -> (x < 1)%Q -> cast (Fin x) = F64.zero.

(** A network whose grades are finite, at least 0 and below 1. *)
Definition grades_below_one (net : list f64 -> f64) : Prop :=
  forall window, exists q, net window = Fin q /\ (0 <= q)%Q /\ (q < 1)%Q.

(** No whole window of the signal is found too small by the range check. *)
Definition never_too_small (self : ECGQualityChecker) (samples : list f64)
  : Prop :=
  forall start,
    start + input_length self <= length samples ->
    _check_window_smaller self
      (Np.slice samples start (start + input_length self))
    <> inr true.

(** * Properties *)

(** ** Facts about the primitives *)

Section Primitives.

Lemma bind_inr {A B} (m : M A) (k : A -> M B) (b : B) :
  bind m k = inr b <-> exists a, m = inr a /\ k a = inr b.
Proof.
  destruct m as [e|a]; simpl; split.
  - discriminate.
  - intros (a & Ha & _). discriminate.
  - eauto.
  - intros (a' & Ha & Hk). congruence.
Qed.

(** [a[i:j] = f(a[i:j])] changes the positions from [i] to [j - 1] and
    no other. *)
Lemma lookup_set_slice_fmap {A} (f : A -> A) (a : list A) (i j k : nat) :
  Np.set_slice a i j (f <$> Np.slice a i j) !! k
  = if bool_decide (i <= k < j) then f <$> a !! k else a !! k.
Proof.
  unfold Np.set_slice, Np.slice.
  rewrite length_fmap, length_take, length_drop.
  destruct (decide (k < i)) as [Hki|Hki].
  - rewrite bool_decide_eq_false_2 by lia.
    destruct (decide (k < length a)) as [Hk|Hk].
    + rewrite lookup_app_l by (rewrite length_take; lia).
      apply lookup_take_lt. lia.
    + rewrite !(lookup_ge_None_2 _ k); [done|lia|].
      rewrite !length_app, length_take, length_fmap, length_take, !length_drop. lia.
  - destruct (decide (length a <= k)) as [Hk|Hk].
    + rewrite (lookup_ge_None_2 a k) by lia.
      rewrite lookup_ge_None_2.
      * by destruct (bool_decide _).
      * rewrite !length_app, length_take, length_fmap, length_take, !length_drop. lia.
    + rewrite lookup_app_r by (rewrite length_take; lia).
      rewrite length_take, Nat.min_l by lia.
      destruct (decide (k < j)) as [Hkj|Hkj].
      * rewrite bool_decide_eq_true_2 by lia.
        rewrite lookup_app_l by (rewrite length_fmap, length_take, length_drop; lia).
        rewrite list_lookup_fmap, lookup_take_lt, lookup_drop by lia.
        do 2 f_equal. lia.
      * rewrite bool_decide_eq_false_2 by lia.
        rewrite lookup_app_r by (rewrite length_fmap, length_take, length_drop; lia).
        rewrite length_fmap, length_take, length_drop, lookup_drop.
        f_equal. lia.
Qed.

Lemma length_set_slice_fmap {A} (f : A -> A) (a : list A) (i j : nat) :
  length (Np.set_slice a i j (f <$> Np.slice a i j)) = length a.
Proof.
  unfold Np.set_slice, Np.slice.
  rewrite !length_app, !length_fmap, !length_take, !length_drop. lia.
Qed.

Lemma length_slice_full {A} (a : list A) (i n : nat) :
  i + n <= length a -> length (Np.slice a i (i + n)) = n.
Proof.
  intros Hn. unfold Np.slice. rewrite length_take, length_drop. lia.
Qed.

(** The window plan holds the multiples of the step below the stop, each
    once and in ascending order. *)
Lemma range0_inr (stop : Z) (step : nat) :
  0 < step ->
  exists n, range0 stop step = inr ((fun k => k * step) <$> seq 0 n)
    /\ forall k, k < n <-> (Z.of_nat (k * step) < stop)%Z.
Proof.
  intros Hstep. unfold range0.
  destruct (Nat.eqb_spec step 0) as [->|_]; [lia|].
  eexists; split; [reflexivity|].
  intros k.
  set (a := (stop + Z.of_nat step - 1)%Z).
  assert (Hlo := Z.mul_div_le a (Z.of_nat step) ltac:(lia)).
  assert (Hhi := Z.mul_succ_div_gt a (Z.of_nat step) ltac:(lia)).
  subst a. destruct (Z.le_gt_cases 0 ((stop + Z.of_nat step - 1) / Z.of_nat step)); nia.
Qed.

Lemma elem_of_range0 (stop : Z) (step : nat) (plan : list nat) (x : nat) :
  range0 stop step = inr plan ->
  x ∈ plan <-> (exists k, x = k * step) /\ (Z.of_nat x < stop)%Z.
Proof.
  unfold range0 at 1. destruct (Nat.eqb_spec step 0) as [->|Hstep]; [done|].
  intros _Hplan.
  destruct (range0_inr stop step ltac:(lia)) as (n & Hr & Hn).
  unfold range0 in Hr. destruct (Nat.eqb_spec step 0); [lia|].
  assert (plan = (fun k => k * step) <$> seq 0 n) as -> by congruence.
  rewrite list_elem_of_fmap. split.
  - intros (k & -> & Hk). apply elem_of_seq in Hk.
    split; [eauto|]. apply Hn. lia.
  - intros ((k & ->) & Hlt). exists k. split; [done|].
    apply elem_of_seq. apply Hn in Hlt. lia.
Qed.

Lemma NoDup_range0 (stop : Z) (step : nat) (plan : list nat) :
  range0 stop step = inr plan -> NoDup plan.
Proof.
  unfold range0. destruct (Nat.eqb_spec step 0) as [->|Hstep]; [done|].
  intros [= <-]. apply NoDup_fmap_2; [|apply NoDup_seq].
  intros x y Hxy. nia.
Qed.

Lemma range0_nil (stop : Z) (step : nat) :
  0 < step -> (stop <= 0)%Z -> range0 stop step = inr [].
Proof.
  intros Hstep Hstop.
  destruct (range0_inr stop step Hstep) as ([|n] & Hr & Hn); [done|].
  specialize (Hn 0). lia.
Qed.

(** A loop keeps what every run of its body keeps, and returns when
    every run of its body does. *)
Lemma for_each_invariant {S A} (body : S -> A -> M S) (I : S -> Prop)
  (l : list A) (s : S) :
  I s ->
  (forall s x, x ∈ l -> I s -> exists s', body s x = inr s' /\ I s') ->
  exists s', for_each body l s = inr s' /\ I s'.
Proof.
  revert s. induction l as [|x l IH]; intros s Hs Hbody; simpl.
  - eauto.
  - destruct (Hbody s x) as (s1 & -> & Hs1); [left|done|]. simpl.
    apply IH; [done|]. intros s2 y Hy. apply Hbody. by right.
Qed.

End Primitives.

(** ** The window scorer and the loops *)

Section Loops.

Context `{ext : Externals}.

Lemma check_window_smaller_inr (self : ECGQualityChecker) (w : list f64) :
  w <> [] -> exists b, _check_window_smaller self w = inr b.
Proof.
  destruct w as [|x w]; [done|]. intros _. unfold _check_window_smaller.
  simpl. eauto.
Qed.

(** On a window that is not empty the scorer returns; its score is 1.0
    without a call of the network, or the network's grade after one call
    on that window. *)
Lemma window_score_inr (self : ECGQualityChecker) (w : list f64) :
  w <> [] ->
  exists s inv, window_score self w = inr (s, inv)
    /\ ((s = F64.one /\ inv = [])
        \/ (s = process_ecg (model self) w /\ inv = [w])).
Proof.
  intros Hw. destruct (check_window_smaller_inr self w Hw) as (b & Hb).
  unfold window_score. rewrite Hb. simpl. destruct b; simpl; eauto 10.
Qed.

Lemma output_accumulate (st : buffers) (a b : nat) (s : f64)
  (inv : list (list f64)) (k : nat) :
  output (accumulate st a b s inv) !! k
  = if bool_decide (a <= k < b)
    then (fun x => F64.add x s) <$> output st !! k
    else output st !! k.
Proof. apply lookup_set_slice_fmap. Qed.

Lemma win_count_accumulate (st : buffers) (a b : nat) (s : f64)
  (inv : list (list f64)) (k : nat) :
  win_count (accumulate st a b s inv) !! k
  = if bool_decide (a <= k < b)
    then (fun x => F64.add x F64.one) <$> win_count st !! k
    else win_count st !! k.
Proof. apply lookup_set_slice_fmap. Qed.

Lemma length_output_accumulate (st : buffers) (a b : nat) (s : f64)
  (inv : list (list f64)) :
  length (output (accumulate st a b s inv)) = length (output st).
Proof. apply length_set_slice_fmap. Qed.

Lemma length_win_count_accumulate (st : buffers) (a b : nat) (s : f64)
  (inv : list (list f64)) :
  length (win_count (accumulate st a b s inv)) = length (win_count st).
Proof. apply length_set_slice_fmap. Qed.

(** Every window of the plan lies inside the signal. *)
Lemma window_plan_in_bounds (self : ECGQualityChecker) (signal : list f64)
  (plan : list nat) (start : nat) :
  window_plan self signal = inr plan -> start ∈ plan ->
  start + input_length self <= length signal.
Proof.
  intros Hplan Hin. eapply elem_of_range0 in Hin; [|exact Hplan]. lia.
Qed.

Lemma window_plan_inr (self : ECGQualityChecker) (signal : list f64) :
  0 < stride self -> exists plan, window_plan self signal = inr plan.
Proof.
  intros HS. unfold window_plan.
  destruct (range0_inr (Z.of_nat (length signal)
                        - Z.of_nat (input_length self) + 1) (stride self) HS)
    as (n & -> & _). eauto.
Qed.

Lemma window_nonempty (self : ECGQualityChecker) (signal : list f64)
  (start : nat) :
  0 < input_length self -> start + input_length self <= length signal ->
  Np.slice signal start (start + input_length self) <> [].
Proof.
  intros HL Hb Hnil. apply (f_equal length) in Hnil.
  rewrite length_slice_full in Hnil by done. simpl in Hnil. lia.
Qed.

Lemma floordiv_inr (n d : nat) : 0 < d -> floordiv n d = inr (n / d).
Proof.
  intros Hd. unfold floordiv. destruct (Nat.eqb_spec d 0); [lia|done].
Qed.

(** The body of the sample-resolution loop, on a window of the plan. *)
Lemma full_body_inr (self : ECGQualityChecker) (signal : list f64)
  (st : buffers) (start : nat) :
  0 < input_length self -> start + input_length self <= length signal ->
  exists s inv,
    window_score self (Np.slice signal start (start + input_length self))
    = inr (s, inv)
    /\ full_body self signal st start
       = inr (accumulate st start (start + input_length self) s inv).
Proof.
  intros HL Hb.
  destruct (window_score_inr self _ (window_nonempty self signal start HL Hb))
    as (s & inv & Hs & _).
  exists s, inv. split; [done|]. unfold full_body. by rewrite Hs.
Qed.

(** The body of the interval-resolution loop, on a window of the plan. *)
Lemma interval_body_inr (self : ECGQualityChecker) (signal : list f64)
  (st : buffers) (start : nat) :
  0 < input_length self -> 0 < stride self ->
  start + input_length self <= length signal ->
  exists s inv,
    window_score self (Np.slice signal start (start + input_length self))
    = inr (s, inv)
    /\ interval_body self signal st start
       = inr (accumulate st (start / stride self)
                ((start + input_length self) / stride self) s inv).
Proof.
  intros HL HS Hb.
  destruct (window_score_inr self _ (window_nonempty self signal start HL Hb))
    as (s & inv & Hs & _).
  exists s, inv. split; [done|]. unfold interval_body.
  rewrite !floordiv_inr by done. simpl. by rewrite Hs.
Qed.

(** An invariant of the accumulation: what holds of the zeroed buffers and
    is kept by adding one scored window holds of the buffers the loop of
    [process_signal] ends with; and that loop returns. *)
Lemma process_loop_invariant (self : ECGQualityChecker) (signal : list f64)
  (I : buffers -> Prop) :
  0 < input_length self -> 0 < stride self ->
  I (initial_buffers (buffer_length self signal)) ->
  (forall st a b w s inv,
     I st -> window_score self w = inr (s, inv) ->
     I (accumulate st a b s inv)) ->
  exists st, process_loop self signal = inr st /\ I st.
Proof.
  intros HL HS Hinit Hstep.
  destruct (window_plan_inr self (cleaned self signal) HS) as (plan & Hplan).
  unfold process_loop, buffer_length, full_loop, interval_loop in *.
  destruct (return_type self).
  - rewrite Hplan. simpl. apply for_each_invariant; [exact Hinit|].
    intros st start Hin Hst.
    destruct (full_body_inr self (cleaned self signal) st start HL)
      as (s & inv & Hs & ->).
    { eapply window_plan_in_bounds; eauto. }
    eauto.
  - rewrite !floordiv_inr by done. simpl. rewrite Hplan. simpl.
    apply for_each_invariant; [exact Hinit|].
    intros st start Hin Hst.
    destruct (interval_body_inr self (cleaned self signal) st start HL HS)
      as (s & inv & Hs & ->).
    { eapply window_plan_in_bounds; eauto. }
    eauto.
Qed.

End Loops.

(** ** The quality mapper *)

Section Mapper.

Context `{ext : Externals}.

Lemma sign_spec (q : Q) :
  match F64.sign q with
  | Eq => (q == 0)%Q
  | Lt => (q < 0)%Q
  | Gt => (0 < q)%Q
  end.
Proof.
  unfold F64.sign, Qeq, Qlt. simpl.
  destruct (Z.compare_spec (Qnum q) 0); lia.
Qed.

(** The mean over a covered position whose sum lies between 0 and the
    count is a finite value between 0 and 1. *)
Lemma div_in_unit (s c : Q) :
  (0 <= s)%Q -> (s <= c)%Q -> F64.div (Fin s) (Fin c) <> NaN ->
  F64.in_unit (F64.div (Fin s) (Fin c)).
Proof.
  intros Hs Hc. simpl.
  pose proof (sign_spec c) as Hsc. destruct (F64.sign c).
  - pose proof (sign_spec s) as Hss. destruct (F64.sign s); [done|lra|lra].
  - lra.
  - intros _. simpl. split.
    + apply Qle_shift_div_l; [done|lra].
    + apply Qle_shift_div_r; [done|lra].
Qed.

Lemma comprehension_fmap {A B} (f : A -> M B) (g : A -> B) (l : list A) :
  (forall x, x ∈ l -> f x = inr (g x)) -> comprehension f l = inr (g <$> l).
Proof.
  induction l as [|x l IH]; intros Hf; simpl; [done|].
  rewrite Hf by left. simpl. rewrite IH; [done|].
  intros y Hy. apply Hf. by right.
Qed.

Lemma get_binary_inr (self : ECGQualityChecker) (scores : list f64)
  (t0 : f64) (l : list f64) :
  thresholds self = TList (t0 :: l) ->
  _get_binary self scores = inr (binary_of t0 <$> scores).
Proof.
  intros Hth. unfold _get_binary. apply comprehension_fmap.
  intros x _. by rewrite Hth.
Qed.

Lemma get_three_value_inr (self : ECGQualityChecker) (scores : list f64)
  (t0 t1 : f64) (l : list f64) :
  thresholds self = TList (t0 :: t1 :: l) ->
  _get_three_value self scores = inr (mapper_of t0 t1 <$> scores).
Proof.
  intros Hth. unfold _get_three_value. apply comprehension_fmap.
  intros x _. rewrite Hth. simpl. unfold mapper_of.
  destruct (F64.ltb x t0); [done|]. simpl. by destruct (F64.ltb x t1).
Qed.

(** With valid thresholds the mapper returns, applies one function to
    every mean, and that function sends not-a-number to the value
    reported for uncovered positions. *)
Lemma calc_precise_scores_inr (self : ECGQualityChecker)
  (scores win_counts : list f64) :
  valid_thresholds (return_mode self) (thresholds self) ->
  exists f,
    _calc_precise_scores self scores win_counts
    = inr (f <$> Np.divide scores win_counts)
    /\ f NaN = uncovered_value (return_mode self)
    /\ (return_mode self = score -> forall x, f x = x).
Proof.
  unfold valid_thresholds, _calc_precise_scores.
  destruct (return_mode self) eqn:Hmode.
  - intros _. exists id. by rewrite list_fmap_id.
  - intros (t0 & t1 & Hth & _). exists (mapper_of t0 t1).
    by rewrite (get_three_value_inr _ _ t0 t1 []).
  - intros (t0 & Hth & _). exists (binary_of t0).
    by rewrite (get_binary_inr _ _ t0 []).
  - intros (t0 & Hth & _). exists (binary_of t0).
    by rewrite (get_binary_inr _ _ t0 []).
Qed.

(** [process_signal] is its loop followed by the mapper. *)
Lemma process_signal_loop (self : ECGQualityChecker) (signal : list f64) :
  process_signal self signal
  = let! st := process_loop self signal in
    _calc_precise_scores self (output st) (win_count st).
Proof.
  unfold process_signal, process_loop, _process_signal_full,
    _process_signal_interval.
  by destruct (return_type self).
Qed.

Lemma lookup_zeros (n k : nat) : k < n -> Np.zeros n !! k = Some F64.zero.
Proof. intros Hk. by apply lookup_replicate_2. Qed.

Lemma length_zeros (n : nat) : length (Np.zeros n) = n.
Proof. apply length_replicate. Qed.

End Mapper.

(** ** Output length, uncovered positions, short signals, bounded scores *)

Section Pipeline.

Context `{ext : Externals}.

(** The buffers keep the length they are allocated with. *)
Lemma process_loop_length (self : ECGQualityChecker) (signal : list f64) :
  0 < input_length self -> 0 < stride self ->
  exists st, process_loop self signal = inr st
    /\ length (output st) = buffer_length self signal
    /\ length (win_count st) = buffer_length self signal.
Proof.
  intros HL HS.
  apply (process_loop_invariant self signal
           (fun st => length (output st) = buffer_length self signal
                      /\ length (win_count st) = buffer_length self signal));
    [done|done| |].
  - simpl. by rewrite length_zeros.
  - intros st a b w s inv [Ho Hc] _.
    by rewrite length_output_accumulate, length_win_count_accumulate.
Qed.

Lemma process_loop_untouched (self : ECGQualityChecker) (signal : list f64) :
  0 < input_length self -> 0 < stride self ->
  exists st, process_loop self signal = inr st
    /\ (length (output st) = buffer_length self signal
        /\ length (win_count st) = buffer_length self signal)
    /\ untouched_or_counted (buffer_length self signal) st.
Proof.
  intros HL HS.
  apply (process_loop_invariant self signal
           (fun st => (length (output st) = buffer_length self signal
                       /\ length (win_count st) = buffer_length self signal)
                      /\ untouched_or_counted (buffer_length self signal) st));
    [done|done| |].
  - split; [simpl; by rewrite length_zeros|].
    intros k Hk. left. simpl. by rewrite lookup_zeros.
  - intros st a b w s inv [[Ho Hc] Hinv] _. split.
    { by rewrite length_output_accumulate, length_win_count_accumulate. }
    intros k Hk. rewrite output_accumulate, win_count_accumulate.
    case_bool_decide; [|by apply Hinv]. right.
    destruct (Hinv k Hk) as [[-> _]|(c & -> & Hc1)]; simpl.
    + eexists; split; [reflexivity|]. lra.
    + eexists; split; [reflexivity|]. lra.
Qed.


(** What the scorer returns is 1.0 or the network's grade. *)
Lemma window_score_value (self : ECGQualityChecker) (w : list f64) (s : f64)
  (inv : list (list f64)) :
  window_score self w = inr (s, inv) ->
  s = F64.one \/ s = process_ecg (model self) w.
Proof.
  unfold window_score. destruct (_check_window_smaller self w) as [e|[]];
    simpl; [done| |]; intros [= <- <-]; auto.
Qed.

Lemma process_loop_bounded (self : ECGQualityChecker) (signal : list f64) :
  0 < input_length self -> 0 < stride self ->
  (forall w, F64.in_unit (process_ecg (model self) w)) ->
  exists st, process_loop self signal = inr st
    /\ (length (output st) = buffer_length self signal
        /\ length (win_count st) = buffer_length self signal)
    /\ sums_bounded (buffer_length self signal) st.
Proof.
  intros HL HS Hnet.
  apply (process_loop_invariant self signal
           (fun st => (length (output st) = buffer_length self signal
                       /\ length (win_count st) = buffer_length self signal)
                      /\ sums_bounded (buffer_length self signal) st));
    [done|done| |].
  - split; [simpl; by rewrite length_zeros|].
    intros k Hk. exists 0%Q, 0%Q. simpl. rewrite lookup_zeros by done.
    repeat split; lra.
  - intros st a b w s inv [[Ho Hc] Hinv] Hs. split.
    { by rewrite length_output_accumulate, length_win_count_accumulate. }
    assert (F64.in_unit s) as Hunit.
    { destruct (window_score_value _ _ _ _ Hs) as [->| ->]; [|done].
      simpl. lra. }
    intros k Hk. rewrite output_accumulate, win_count_accumulate.
    case_bool_decide; [|by apply Hinv].
    destruct (Hinv k Hk) as (q & c & -> & -> & Hq0 & Hqc).
    destruct s as [| | |x]; try done. simpl in Hunit.
    exists (q + x)%Q, (c + 1)%Q. simpl. repeat split; lra.
Qed.

(** C1 (amended).  In either granularity, a position whose contribution
    count is zero is reported as not-a-number in score mode only: the
    binary modes report it as 2.0 and three-value mode as 3.0, because
    not-a-number is below no threshold. *)
Theorem uncovered_positions (self : ECGQualityChecker) (signal : list f64) :
  valid_config self ->
  exists st res,
    process_loop self signal = inr st
    /\ process_signal self signal = inr res
    /\ forall k c,
         win_count st !! k = Some (Fin c) -> (c == 0)%Q ->
         res !! k = Some (uncovered_value (return_mode self)).
Proof.
  intros (HL & HS & Hth).
  destruct (process_loop_untouched self signal HL HS)
    as (st & Hloop & [Ho Hc] & Hinv).
  destruct (calc_precise_scores_inr self (output st) (win_count st) Hth)
    as (f & Hcalc & Hnan & _).
  exists st, (f <$> Np.divide (output st) (win_count st)).
  split; [done|]. split.
  { rewrite process_signal_loop, Hloop. exact Hcalc. }
  intros k c Hk Hc0.
  assert (k < buffer_length self signal) as Hlt.
  { rewrite <- Hc. eapply lookup_lt_Some. exact Hk. }
  rewrite list_lookup_fmap. unfold Np.divide. rewrite lookup_zip_with.
  destruct (Hinv k Hlt) as [[Hcnt Hout]|(c' & Hcnt & Hc1)].
  - rewrite Hout, Hcnt. simpl. by rewrite <- Hnan.
  - rewrite Hk in Hcnt. injection Hcnt as <-. lra.
Qed.

(** C6.  The output has one value per sample in full mode and one per
    stride-sized interval in intervals mode. *)
Theorem output_length (self : ECGQualityChecker) (signal : list f64) :
  valid_config self ->
  length (cleaned self signal) = length signal ->
  exists res,
    process_signal self signal = inr res
    /\ length res = match return_type self with
                    | full => length signal
                    | intervals => length signal / stride self
                    end.
Proof.
  intros (HL & HS & Hth) Hclean.
  destruct (process_loop_length self signal HL HS) as (st & Hloop & Ho & Hc).
  destruct (calc_precise_scores_inr self (output st) (win_count st) Hth)
    as (f & Hcalc & _).
  exists (f <$> Np.divide (output st) (win_count st)). split.
  { rewrite process_signal_loop, Hloop. exact Hcalc. }
  rewrite length_fmap. unfold Np.divide. rewrite length_zip_with, Ho, Hc.
  unfold buffer_length. rewrite Hclean. destruct (return_type self); lia.
Qed.

(** C8.  In score mode, with a network that grades every window between 0
    and 1, [process_signal] returns and every value of its output that is
    a number lies between 0 and 1, in both granularities. *)
Theorem score_mode_bounded (self : ECGQualityChecker) (signal : list f64) :
  0 < input_length self -> 0 < stride self ->
  return_mode self = score ->
  (forall w, F64.in_unit (process_ecg (model self) w)) ->
  exists res,
    process_signal self signal = inr res
    /\ forall k v, res !! k = Some v -> v <> NaN -> F64.in_unit v.
Proof.
  intros HL HS Hmode Hnet.
  destruct (process_loop_bounded self signal HL HS Hnet)
    as (st & Hloop & [Ho Hc] & Hinv).
  exists (Np.divide (output st) (win_count st)). split.
  { rewrite process_signal_loop, Hloop. simpl.
    unfold _calc_precise_scores. by rewrite Hmode. }
  intros k v. unfold Np.divide. rewrite lookup_zip_with.
  destruct (output st !! k) as [x|] eqn:Hx; [|done]. simpl.
  destruct (win_count st !! k) as [y|] eqn:Hy; [|done]. simpl.
  intros [= <-].
  assert (k < buffer_length self signal) as Hlt.
  { rewrite <- Ho. eapply lookup_lt_Some. exact Hx. }
  destruct (Hinv k Hlt) as (q & c & Hq & Hcq & Hq0 & Hqc).
  rewrite Hx in Hq. rewrite Hy in Hcq. injection Hq as ->. injection Hcq as ->.
  by apply div_in_unit.
Qed.

End Pipeline.

(** ** Short signals and the interval aggregation *)

Section Aggregation.

Context `{ext : Externals}.

Lemma window_plan_short (self : ECGQualityChecker) (signal : list f64) :
  0 < stride self -> length signal < input_length self ->
  window_plan self signal = inr [].
Proof.
  intros HS Hshort. unfold window_plan. apply range0_nil; [done|lia].
Qed.

(** A signal shorter than the window leaves the loop with the zeroed
    buffers it allocated and no call of the network. *)
Lemma process_loop_short (self : ECGQualityChecker) (signal : list f64) :
  0 < stride self -> length (cleaned self signal) < input_length self ->
  process_loop self signal = inr (initial_buffers (buffer_length self signal)).
Proof.
  intros HS Hshort.
  unfold process_loop, buffer_length, full_loop, interval_loop.
  destruct (return_type self).
  - by rewrite window_plan_short.
  - rewrite !floordiv_inr by done. simpl. by rewrite window_plan_short.
Qed.

(** C2 (amended).  A signal shorter than the window is processed without
    any call of the network.  The output has one value per sample in full
    mode and one per whole stride, [N // stride] of them, in intervals
    mode, which is not zero as soon as the signal is a stride long.  Every
    value is the one reported for an uncovered position: not-a-number in
    score mode, 2.0 in the binary modes, 3.0 in three-value mode. *)
Theorem short_signal (self : ECGQualityChecker) (signal : list f64) :
  valid_config self ->
  length (cleaned self signal) = length signal ->
  length signal < input_length self ->
  exists st,
    process_loop self signal = inr st
    /\ calls st = []
    /\ process_signal self signal
       = inr (replicate
                (match return_type self with
                 | full => length signal
                 | intervals => length signal / stride self
                 end)
                (uncovered_value (return_mode self))).
Proof.
  intros (HL & HS & Hth) Hclean Hshort.
  exists (initial_buffers (buffer_length self signal)).
  assert (process_loop self signal
          = inr (initial_buffers (buffer_length self signal))) as Hloop.
  { apply process_loop_short; [done|lia]. }
  split; [done|]. split; [done|].
  rewrite process_signal_loop, Hloop. simpl.
  destruct (calc_precise_scores_inr self
              (Np.zeros (buffer_length self signal))
              (Np.zeros (buffer_length self signal)) Hth)
    as (f & -> & Hnan & _).
  unfold Np.divide, Np.zeros. rewrite zip_with_replicate, fmap_replicate.
  simpl. rewrite Hnan. unfold buffer_length. by rewrite Hclean.
Qed.

Lemma foldl_option_fmap {A B} (c : B -> bool) (g : B -> A -> A) (l : list B)
  (v : A) :
  foldl (fun acc x => if c x then g x <$> acc else acc) (Some v) l
  = Some (foldl (fun acc x => if c x then g x acc else acc) v l).
Proof.
  revert v. induction l as [|x l IH]; intros v; simpl; [done|].
  destruct (c x); apply IH.
Qed.

(** One run of the body of the interval loop: the window's score is added
    to the sums, and 1 to the counts, of the intervals the window covers
    and of no other. *)
Lemma interval_body_effect (self : ECGQualityChecker) (signal : list f64)
  (st : buffers) (start : nat) :
  0 < input_length self -> 0 < stride self ->
  start + input_length self <= length signal ->
  exists st',
    interval_body self signal st start = inr st'
    /\ length (output st') = length (output st)
    /\ length (win_count st') = length (win_count st)
    /\ forall k,
         output st' !! k
         = (if covers self start k
            then (fun x => F64.add x (score_at self signal start))
                   <$> output st !! k
            else output st !! k)
         /\ win_count st' !! k
            = (if covers self start k
               then (fun x => F64.add x F64.one) <$> win_count st !! k
               else win_count st !! k).
Proof.
  intros HL HS Hb.
  destruct (interval_body_inr self signal st start HL HS Hb)
    as (s & inv & Hs & Hbody).
  eexists. split; [exact Hbody|].
  rewrite length_output_accumulate, length_win_count_accumulate.
  do 2 (split; [done|]). intros k.
  rewrite output_accumulate, win_count_accumulate.
  unfold covers, score_at. by rewrite Hs.
Qed.

(** The whole loop: every window of the plan contributes once, in plan
    order, to every interval it covers. *)
Lemma interval_for_each (self : ECGQualityChecker) (signal : list f64)
  (plan : list nat) (st : buffers) :
  0 < input_length self -> 0 < stride self ->
  (forall start, start ∈ plan -> start + input_length self <= length signal) ->
  exists st',
    for_each (interval_body self signal) plan st = inr st'
    /\ length (output st') = length (output st)
    /\ length (win_count st') = length (win_count st)
    /\ forall k,
         output st' !! k
         = foldl (fun acc start =>
                    if covers self start k
                    then (fun x => F64.add x (score_at self signal start))
                           <$> acc
                    else acc) (output st !! k) plan
         /\ win_count st' !! k
            = foldl (fun acc start =>
                       if covers self start k
                       then (fun x => F64.add x F64.one) <$> acc
                       else acc) (win_count st !! k) plan.
Proof.
  intros HL HS. revert st.
  induction plan as [|start plan IH]; intros st Hb; simpl.
  - by exists st.
  - destruct (interval_body_effect self signal st start HL HS)
      as (st1 & -> & Ho1 & Hc1 & Hk1); [apply Hb; left|]. simpl.
    destruct (IH st1) as (st' & -> & Ho & Hc & Hk).
    { intros x Hx. apply Hb. by right. }
    exists st'. split; [done|]. rewrite Ho, Hc. do 2 (split; [done|]).
    intros k. destruct (Hk k) as [-> ->]. destruct (Hk1 k) as [-> ->]. done.
Qed.

(** C3.  In intervals mode the loop returns, the plan lists every window
    once, and every window of the plan adds its score once to the sum,
    and 1 once to the count, of each interval from [start // stride] up
    to but not including [(start + input_length) // stride], and of no
    other.  That range always lies inside the buffers, so nothing is cut
    off, and it is not empty when the stride is at most the window
    length.  The buffers the loop ends with hold, at every interval, the
    sum of these contributions over the whole plan. *)
Theorem interval_contributions (self : ECGQualityChecker)
  (signal : list f64) :
  0 < input_length self -> 0 < stride self ->
  let sig := cleaned self signal in
  let n := length sig / stride self in
  exists plan st,
    window_plan self sig = inr plan
    /\ NoDup plan
    /\ interval_loop self signal = inr st
    /\ length (output st) = n
    /\ length (win_count st) = n
    /\ (forall start, start ∈ plan ->
          (start + input_length self) / stride self <= n
          /\ (stride self <= input_length self ->
              start / stride self < (start + input_length self) / stride self))
    /\ (forall st0 start, start ∈ plan ->
          exists st1,
            interval_body self sig st0 start = inr st1
            /\ forall k,
                 output st1 !! k
                 = (if covers self start k
                    then (fun x => F64.add x (score_at self sig start))
                           <$> output st0 !! k
                    else output st0 !! k)
                 /\ win_count st1 !! k
                    = (if covers self start k
                       then (fun x => F64.add x F64.one) <$> win_count st0 !! k
                       else win_count st0 !! k))
    /\ (forall k, k < n ->
          output st !! k
          = Some (foldl (fun acc start =>
                           if covers self start k
                           then F64.add acc (score_at self sig start)
                           else acc) F64.zero plan)
          /\ win_count st !! k
             = Some (foldl (fun acc start =>
                              if covers self start k
                              then F64.add acc F64.one
                              else acc) F64.zero plan)).
Proof.
  intros HL HS sig n.
  destruct (window_plan_inr self sig HS) as (plan & Hplan).
  assert (forall start, start ∈ plan ->
                        start + input_length self <= length sig) as Hb.
  { intros start. by apply window_plan_in_bounds. }
  destruct (interval_for_each self sig plan (initial_buffers n) HL HS Hb)
    as (st & Hloop & Ho & Hc & Hk).
  exists plan, st. split; [done|]. split.
  { eapply NoDup_range0. exact Hplan. }
  split.
  { unfold interval_loop. fold sig. rewrite !floordiv_inr by done. simpl.
    rewrite Hplan. exact Hloop. }
  simpl in Ho, Hc. rewrite length_zeros in Ho, Hc.
  do 2 (split; [done|]). split; [|split].
  - intros start Hin. split.
    + apply Nat.Div0.div_le_mono. by apply Hb.
    + intros HSL.
      assert (start / stride self + 1 <= (start + input_length self) / stride self);
        [|lia].
      rewrite <- (Nat.div_add start 1 (stride self)) by lia.
      apply Nat.Div0.div_le_mono. lia.
  - intros st0 start Hin.
    destruct (interval_body_effect self sig st0 start HL HS (Hb start Hin))
      as (st1 & Hbody & _ & _ & Heff).
    eauto.
  - intros k Hlt. destruct (Hk k) as [-> ->]. simpl.
    rewrite lookup_zeros by done.
    split.
    + apply (foldl_option_fmap (fun start => covers self start k)
               (fun start x => F64.add x (score_at self sig start))).
    + apply (foldl_option_fmap (fun start => covers self start k)
               (fun _ x => F64.add x F64.one)).
Qed.

End Aggregation.

(** ** Threshold reduction *)

Section Reduction.

Context `{ext : Externals}.

(** Between two numbers, [x < y] fails exactly when [y <= x] holds. *)
Lemma ltb_negb_leb (x y : f64) :
  x <> NaN -> y <> NaN -> F64.ltb x y = negb (F64.leb y x).
Proof. destruct x, y; simpl; done. Qed.

Lemma ltb_leb_trans (x y z : f64) :
  F64.ltb x y = true -> F64.leb y z = true -> F64.ltb x z = true.
Proof.
  destruct x as [| | |a], y as [| | |b], z as [| | |c]; simpl; try done.
  rewrite !negb_true_iff, Qle_bool_iff.
  intros Hab Hbc. destruct (Qle_bool c a) eqn:Hca; [|done].
  apply Qle_bool_iff in Hca.
  assert (b <= a)%Q as Hba by lra. apply Qle_bool_iff in Hba. congruence.
Qed.

Lemma categories_distinct :
  F64.one <> F64.two /\ F64.one <> F64.three /\ F64.two <> F64.three.
Proof. by repeat split. Qed.

(** With ascending thresholds, the three-value mapper sends a number to
    1.0, 2.0 or 3.0 according to the band it lies in. *)
Lemma mapper_of_bands (t0 t1 m : f64) :
  F64.leb t0 t1 = true -> m <> NaN ->
  let c := mapper_of t0 t1 m in
  (c = F64.one \/ c = F64.two \/ c = F64.three)
  /\ (c = F64.one <-> F64.ltb m t0 = true)
  /\ (c = F64.two <-> F64.leb t0 m = true /\ F64.ltb m t1 = true)
  /\ (c = F64.three <-> F64.leb t1 m = true).
Proof.
  intros Hle Hm c. subst c. unfold mapper_of.
  assert (t0 <> NaN /\ t1 <> NaN) as [H0 H1] by (by destruct t0, t1).
  pose proof (ltb_negb_leb m t0 Hm H0) as E0.
  pose proof (ltb_negb_leb m t1 Hm H1) as E1.
  pose proof (ltb_leb_trans m t0 t1) as Htr.
  destruct categories_distinct as (D12 & D13 & D23).
  destruct (F64.ltb m t0) eqn:L0; [rewrite (Htr eq_refl Hle) in *|];
    destruct (F64.ltb m t1) eqn:L1;
    destruct (F64.leb t0 m) eqn:G0; destruct (F64.leb t1 m) eqn:G1;
    simpl in E0, E1; try discriminate;
    try (exfalso; apply (f_equal negb) in G1;
         rewrite <- ltb_negb_leb in G1 by done;
         rewrite (ltb_leb_trans m t0 t1) in G1; done);
    repeat split; intros; auto; try tauto; try congruence;
    try (exfalso; intuition congruence).
Qed.

(** C5.  With ascending thresholds, three-value mode sends every mean that
    is a number to exactly one of 1.0 (below the first threshold), 2.0
    (from the first threshold up to, not including, the second) and 3.0
    (from the second threshold on).  Either binary mode sends it to 1.0
    below the threshold and to 2.0 otherwise, and the two binary modes
    compute the same output. *)
Theorem threshold_reduction (self : ECGQualityChecker)
  (scores win_counts : list f64) (t0 t1 : f64) :
  let means := Np.divide scores win_counts in
  (return_mode self = three_value -> thresholds self = TList [t0; t1] ->
   F64.leb t0 t1 = true ->
   exists res,
     _calc_precise_scores self scores win_counts = inr res
     /\ length res = length means
     /\ forall k m, means !! k = Some m -> m <> NaN ->
          exists c,
            res !! k = Some c
            /\ (c = F64.one \/ c = F64.two \/ c = F64.three)
            /\ (c = F64.one <-> F64.ltb m t0 = true)
            /\ (c = F64.two <-> F64.leb t0 m = true /\ F64.ltb m t1 = true)
            /\ (c = F64.three <-> F64.leb t1 m = true))
  /\ (return_mode self = binary_clean \/ return_mode self = binary_qrs ->
      thresholds self = TList [t0] ->
      exists res,
        _calc_precise_scores self scores win_counts = inr res
        /\ length res = length means
        /\ (forall k m, means !! k = Some m -> m <> NaN ->
              res !! k = Some (if F64.ltb m t0 then F64.one else F64.two))
        /\ _calc_precise_scores (with_return_mode binary_clean self)
             scores win_counts = inr res
        /\ _calc_precise_scores (with_return_mode binary_qrs self)
             scores win_counts = inr res).
Proof.
  intros means. split.
  - intros Hmode Hth Hle. exists (mapper_of t0 t1 <$> means).
    unfold _calc_precise_scores. rewrite Hmode.
    rewrite (get_three_value_inr _ _ t0 t1 []) by done.
    split; [done|]. split; [by rewrite length_fmap|].
    intros k m Hk Hm. exists (mapper_of t0 t1 m).
    rewrite list_lookup_fmap. fold means. rewrite Hk. split; [done|].
    by apply mapper_of_bands.
  - intros Hmode Hth. exists (binary_of t0 <$> means).
    assert (forall mode, mode = binary_clean \/ mode = binary_qrs ->
              _calc_precise_scores (with_return_mode mode self)
                scores win_counts = inr (binary_of t0 <$> means)) as Hboth.
    { intros mode Hm. unfold _calc_precise_scores. simpl.
      rewrite (get_binary_inr _ _ t0 []) by done. by destruct Hm as [-> | ->]. }
    split.
    { unfold _calc_precise_scores.
      rewrite (get_binary_inr _ _ t0 []) by done. by destruct Hmode as [-> | ->]. }
    split; [by rewrite length_fmap|]. split.
    { intros k m Hk _. rewrite list_lookup_fmap. fold means. by rewrite Hk. }
    split; apply Hboth; auto.
Qed.

End Reduction.

(** ** The constructor's threshold rules *)

Section Constructor.

Context `{ext : Externals}.

Lemma in_0_1_spec (t : f64) : in_0_1 t = true <-> F64.in_unit t.
Proof.
  unfold in_0_1. destruct t; simpl; try (split; [discriminate|tauto]).
  by rewrite andb_true_iff, !Qle_bool_iff.
Qed.

Lemma in_0_1_false (t : f64) : in_0_1 t = false <-> ~ F64.in_unit t.
Proof. rewrite <- in_0_1_spec. by destruct (in_0_1 t). Qed.

Lemma sort_pair (t0 t1 : f64) :
  F64.in_unit t1 ->
  Np.sort [t0; t1] = if F64.leb t0 t1 then [t0; t1] else [t1; t0].
Proof. by destruct t1. Qed.

(** The thresholds block returns exactly on the accepted arguments, with
    the accepted stored value. *)
Lemma check_thresholds_accepts (mode : ReturnMode) (th stored : thresholds_arg) :
  check_thresholds mode th = inr stored <-> accepts mode th stored.
Proof.
  assert (forall t, check_thresholds binary_clean (TList [t]) = inr stored
                    <-> F64.in_unit t /\ stored = TList [t]) as Hone.
  { intros t. simpl. destruct (in_0_1 t) eqn:Ht; simpl.
    - apply in_0_1_spec in Ht. split; [intros [= <-]; done|intros [_ ->]; done].
    - apply in_0_1_false in Ht. split; [done|tauto]. }
  destruct mode; simpl accepts.
  - destruct th; simpl; split; try done; try (intros [? ?]; done).
    + intros [= <-]. done.
    + intros [_ ->]. done.
  - destruct th as [|t|l]; simpl.
    1,2: split; [done|intros (? & ? & ? & _); done].
    destruct l as [|t0 [|t1 [|t2 l]]]; cbn -[Np.sort];
      try (split; [done|intros (? & ? & ? & _); done]).
    destruct (in_0_1 t0) eqn:H0; cbn -[Np.sort].
    2:{ apply in_0_1_false in H0. split; [done|].
        intros (? & ? & [= <- <-] & ? & _). done. }
    destruct (in_0_1 t1) eqn:H1; cbn -[Np.sort].
    2:{ apply in_0_1_false in H1. split; [done|].
        intros (? & ? & [= <- <-] & ? & ? & _). done. }
    apply in_0_1_spec in H0, H1. rewrite sort_pair by done. split.
    + intros [= <-]. by exists t0, t1.
    + intros (? & ? & [= <- <-] & _ & _ & ->). done.
  - destruct th as [|t|l].
    + split; [done|intros (? & [?|?] & _); done].
    + rewrite (Hone t). split.
      * intros [? ->]. exists t. auto.
      * intros (t' & [[= <-]|?] & ? & ->); done.
    + destruct l as [|t0 [|t1 l]].
      1,3: split; [done|intros (? & [?|?] & _); done].
      rewrite (Hone t0). split.
      * intros [? ->]. exists t0. auto.
      * intros (t' & [?|[= <-]] & ? & ->); done.
  - change (check_thresholds binary_qrs th)
      with (check_thresholds binary_clean th).
    destruct th as [|t|l].
    + split; [done|intros (? & [?|?] & _); done].
    + rewrite (Hone t). split.
      * intros [? ->]. exists t. auto.
      * intros (t' & [[= <-]|?] & ? & ->); done.
    + destruct l as [|t0 [|t1 l]].
      1,3: split; [done|intros (? & [?|?] & _); done].
      rewrite (Hone t0). split.
      * intros [? ->]. exists t0. auto.
      * intros (t' & [?|[= <-]] & ? & ->); done.
Qed.

(** When the argument has a length wherever the block asks for one, a
    rejection is one of the two threshold errors. *)
Lemma check_thresholds_error (mode : ReturnMode) (th : thresholds_arg)
  (e : exn) :
  mode = score \/ (exists l, th = TList l)
  \/ (exists t, th = TFloat t /\ mode <> three_value) ->
  check_thresholds mode th = inl e ->
  e = threshold_count_error \/ e = threshold_range_error.
Proof.
  intros Hlen.
  assert (forall l, check_thresholds binary_clean (TList l) = inl e ->
            e = threshold_count_error \/ e = threshold_range_error) as Hbin.
  { intros [|t0 [|t1 l]]; simpl; try (intros [= <-]; auto).
    destruct (in_0_1 t0); simpl; [done|]. intros [= <-]. auto. }
  destruct mode.
  - destruct th; simpl; try done; intros [= <-]; auto.
  - destruct Hlen as [?|[(l & ->)|(t & _ & ?)]]; try done.
    destruct l as [|t0 [|t1 [|t2 l]]]; simpl; try (intros [= <-]; auto).
    destruct (in_0_1 t0); simpl; [|intros [= <-]; auto].
    destruct (in_0_1 t1); simpl; [done|intros [= <-]; auto].
  - destruct Hlen as [?|[(l & ->)|(t & -> & _)]]; try done.
    + apply Hbin.
    + apply (Hbin [t]).
  - change (check_thresholds binary_qrs th)
      with (check_thresholds binary_clean th).
    destruct Hlen as [?|[(l & ->)|(t & -> & _)]]; try done.
    + apply Hbin.
    + apply (Hbin [t]).
Qed.


(** The constructor once the model and the mode have passed their checks:
    the thresholds block, then the remaining checks. *)
Lemma init_after_mode (model : string) (stride : f64) (return_mode : string)
  (thresholds : thresholds_arg) (return_type : string) (sampling_rate : Z)
  (clean_data check_window_range : bool) (window_min_range : f64)
  (mode : ReturnMode) :
  py_in model MODEL_PATH_DICT = true ->
  parse_return_mode return_mode = Some mode ->
  __init__ model stride return_mode thresholds return_type sampling_rate
    clean_data check_window_range window_min_range
  = let! stored :=
      check_thresholds mode
        (effective_thresholds model return_mode thresholds) in
    match parse_return_type return_type with
    | None =>
        raise (ValueError
                 (String.append
                    "Return type needs to be one of: intervals, full. Currently is "
                    return_type))
    | Some rtype =>
        if negb (sampling_rate =? 250)%Z then
          raise (NotImplementedError "This class currently only support ECG with frequency of 250 Hz. Consider modyfing your data to comply with this prerequisite.")
        else if F64.ltb stride F64.zero then
          raise (ValueError "Stride for a model can not be negative")
        else
          ret {| model := load_tf_model model;
                 input_length := get_input_length (load_tf_model model);
                 stride :=
                   get_stride_length (get_input_length (load_tf_model model))
                     stride sampling_rate;
                 return_mode := mode;
                 return_type := rtype;
                 thresholds := stored;
                 sampling_rate := sampling_rate;
                 clean_data := clean_data;
                 check_window := check_window_range;
                 min_window := window_min_range |}
    end.
Proof. intros Hmodel Hmode. unfold __init__. by rewrite Hmodel, Hmode. Qed.

(** Accepted thresholds are stored as accepted when the later checks
    pass. *)
Lemma init_accepted (model_name : string) (ratio : f64) (mode_name : string)
  (arg : thresholds_arg) (type_name : string) (rate : Z)
  (clean check : bool) (range : f64) (mode : ReturnMode)
  (stored : thresholds_arg) (rtype : ReturnType) :
  py_in model_name MODEL_PATH_DICT = true ->
  parse_return_mode mode_name = Some mode ->
  accepts mode (effective_thresholds model_name mode_name arg) stored ->
  parse_return_type type_name = Some rtype ->
  rate = 250%Z ->
  F64.ltb ratio F64.zero = false ->
  exists self,
    __init__ model_name ratio mode_name arg type_name rate clean check range
    = inr self
    /\ thresholds self = stored /\ return_mode self = mode.
Proof.
  intros Hmodel Hmode Hacc Hrt -> Hratio.
  rewrite (init_after_mode _ _ _ _ _ _ _ _ _ mode Hmodel Hmode).
  apply check_thresholds_accepts in Hacc. rewrite Hacc. simpl.
  rewrite Hrt, Hratio. simpl. eexists. split; [reflexivity|done].
Qed.

(** C7 (amended).  Once the model and the mode are accepted, the
    thresholds block accepts exactly: no thresholds in score mode (an
    empty list is rejected like any other value); in a binary mode one
    value between 0 and 1, as a one-element list or as a bare float,
    stored as the one-element list; in three-value mode a list of two
    values between 0 and 1, stored in ascending order.  An object is
    built only from accepted thresholds, is built from every accepted
    thresholds when the later checks pass, and a rejected argument that
    has a length where one is asked for fails with one of the two
    threshold errors. *)
Theorem threshold_validation (model_name : string) (ratio : f64)
  (mode_name : string) (arg : thresholds_arg) (type_name : string)
  (rate : Z) (clean check : bool) (range : f64) (mode : ReturnMode) :
  py_in model_name MODEL_PATH_DICT = true ->
  parse_return_mode mode_name = Some mode ->
  let th := effective_thresholds model_name mode_name arg in
  let new := __init__ model_name ratio mode_name arg type_name rate clean
               check range in
  (forall stored, check_thresholds mode th = inr stored <-> accepts mode th stored)
  /\ (forall self, new = inr self ->
        return_mode self = mode /\ accepts mode th (thresholds self))
  /\ (forall stored rtype,
        accepts mode th stored ->
        parse_return_type type_name = Some rtype ->
        rate = 250%Z ->
        F64.ltb ratio F64.zero = false ->
        exists self, new = inr self
                     /\ thresholds self = stored /\ return_mode self = mode)
  /\ ((forall stored, ~ accepts mode th stored) ->
      mode = score \/ (exists l, th = TList l)
      \/ (exists t, th = TFloat t /\ mode <> three_value) ->
      new = inl threshold_count_error \/ new = inl threshold_range_error).
Proof.
  intros Hmodel Hmode th new.
  assert (new = _) as Hnew by exact (init_after_mode model_name ratio
    mode_name arg type_name rate clean check range mode Hmodel Hmode).
  fold th in Hnew. split; [|split; [|split]].
  - intros stored. apply check_thresholds_accepts.
  - intros self. rewrite Hnew.
    destruct (check_thresholds mode th) as [e|stored] eqn:Hc; simpl; [done|].
    apply check_thresholds_accepts in Hc.
    destruct (parse_return_type type_name); [|done].
    destruct (negb (rate =? 250)%Z); [done|].
    destruct (F64.ltb ratio F64.zero); [done|].
    intros [= <-]. done.
  - intros stored rtype Hacc Hrt Hrate Hratio.
    by apply (init_accepted _ _ _ _ _ _ _ _ _ mode stored rtype).
  - intros Hrej Hlen. rewrite Hnew.
    destruct (check_thresholds mode th) as [e|stored] eqn:Hc; simpl.
    + destruct (check_thresholds_error mode th e Hlen Hc) as [-> | ->]; auto.
    + apply check_thresholds_accepts in Hc. by destruct (Hrej stored).
Qed.

(** C10.  In a binary mode a bare float is handled as the one-element
    list that holds it: the constructor returns the same in both cases,
    and when the float lies between 0 and 1 and the other arguments are
    accepted the object is built with the one-element list stored. *)
Theorem bare_float_threshold (model_name : string) (ratio : f64)
  (mode_name : string) (t : f64) (type_name : string) (rate : Z)
  (clean check : bool) (range : f64) :
  mode_name = "binary_clean" \/ mode_name = "binary_qrs" ->
  let new arg := __init__ model_name ratio mode_name arg type_name rate
                   clean check range in
  new (TFloat t) = new (TList [t])
  /\ (F64.in_unit t ->
      py_in model_name MODEL_PATH_DICT = true ->
      (exists rtype, parse_return_type type_name = Some rtype) ->
      rate = 250%Z ->
      F64.ltb ratio F64.zero = false ->
      exists self, new (TFloat t) = inr self /\ thresholds self = TList [t]).
Proof.
  intros Hname new. split.
  - unfold new, __init__. by destruct Hname as [-> | ->].
  - intros Ht Hmodel (rtype & Hrt) Hrate Hratio.
    assert (exists mode, parse_return_mode mode_name = Some mode
                         /\ (mode = binary_clean \/ mode = binary_qrs))
      as (mode & Hparse & Hbin).
    { destruct Hname as [-> | ->]; eexists; (split; [reflexivity|auto]). }
    destruct (init_accepted model_name ratio mode_name (TFloat t) type_name
                rate clean check range mode (TList [t]) rtype)
      as (self & Hself & Hth & _); try done.
    { simpl. destruct Hbin as [-> | ->]; exists t; auto. }
    eauto.
Qed.

Lemma leb_total_in_unit (t0 t1 : f64) :
  F64.in_unit t0 -> F64.in_unit t1 -> F64.leb t0 t1 = false ->
  F64.leb t1 t0 = true.
Proof.
  destruct t0 as [| | |a], t1 as [| | |b]; simpl; try done.
  intros _ _ Hab. apply Qle_bool_iff.
  destruct (Qlt_le_dec a b) as [Hlt|Hle]; [|done].
  assert (a <= b)%Q as Hle by lra. apply Qle_bool_iff in Hle. congruence.
Qed.

(** What the thresholds block stores is valid for the mode. *)
Lemma accepts_valid (mode : ReturnMode) (th stored : thresholds_arg) :
  accepts mode th stored -> valid_thresholds mode stored.
Proof.
  destruct mode; simpl.
  - by intros [_ ->].
  - intros (t0 & t1 & _ & H0 & H1 & ->).
    destruct (F64.leb t0 t1) eqn:Hle.
    + by exists t0, t1.
    + exists t1, t0. repeat split; try done. by apply leb_total_in_unit.
  - intros (t & _ & Ht & ->). by exists t.
  - intros (t & _ & Ht & ->). by exists t.
Qed.

(** Every object the constructor builds holds thresholds that are valid
    for its mode. *)
Lemma init_valid_thresholds (model_name : string) (ratio : f64)
  (mode_name : string) (arg : thresholds_arg) (type_name : string) (rate : Z)
  (clean check : bool) (range : f64) (self : ECGQualityChecker) :
  __init__ model_name ratio mode_name arg type_name rate clean check range
  = inr self ->
  valid_thresholds (return_mode self) (thresholds self).
Proof.
  destruct (py_in model_name MODEL_PATH_DICT) eqn:Hmodel;
    [|by unfold __init__; rewrite Hmodel].
  destruct (parse_return_mode mode_name) as [mode|] eqn:Hmode;
    [|by unfold __init__; rewrite Hmodel, Hmode].
  rewrite (init_after_mode _ _ _ _ _ _ _ _ _ mode Hmodel Hmode).
  destruct (check_thresholds mode _) as [e|stored] eqn:Hc; simpl; [done|].
  apply check_thresholds_accepts, accepts_valid in Hc.
  destruct (parse_return_type type_name); [|done].
  destruct (negb (rate =? 250)%Z); [done|].
  destruct (F64.ltb ratio F64.zero); [done|].
  by intros [= <-].
Qed.

(** ** The degeneracy check *)

(** The scorer never reads [check_window]: two objects that differ in
    that attribute only score every window alike. *)
Lemma window_score_ignores_check_window (self : ECGQualityChecker)
  (flag : bool) (w : list f64) :
  window_score
    {| model := model self;
       input_length := input_length self;
       stride := stride self;
       return_mode := return_mode self;
       return_type := return_type self;
       thresholds := thresholds self;
       sampling_rate := sampling_rate self;
       clean_data := clean_data self;
       check_window := flag;
       min_window := min_window self |} w
  = window_score self w.
Proof. done. Qed.


End Constructor.

(** ** The properties on the test bench *)

Import Bench.

Lemma lab_checker_valid (mode : ReturnMode) (rtype : ReturnType)
  (th : thresholds_arg) :
  valid_thresholds mode th -> valid_config (lab_checker mode rtype th).
Proof. intros Hth. unfold valid_config. simpl. repeat split; [lia|lia|done]. Defined.

Lemma three_quarters_in_unit : F64.in_unit three_quarters.
Proof. simpl. split; discriminate. Defined.

Lemma half_in_unit : F64.in_unit half.
Proof. simpl. split; discriminate. Defined.

(** C1, counterexample.  Windows of 500 samples every 250 samples over a
    signal of 1100 samples start at 0, 250 and 500 and end before sample
    1000.  In binary_clean mode with full granularity sample 1000 has a
    count of zero and is reported as 2.0, not as not-a-number. *)
Lemma uncovered_position_remapped :
  let c := clinic_checker binary_clean full (TList [three_quarters]) in
  match process_loop (ext:=clinic) c (zigzag 1100),
        process_signal (ext:=clinic) c (zigzag 1100) with
  | inr st, inr res =>
      win_count st !! 1000 = Some F64.zero
      /\ res !! 1000 = Some F64.two
      /\ res !! 1000 <> Some NaN
  | _, _ => False
  end.
Proof.
  vm_compute. split; [reflexivity|]. split; [reflexivity|discriminate].
Qed.

Lemma uncovered_positions_witness :
  let c := lab_checker binary_clean full (TList [three_quarters]) in
  exists st res,
    process_loop (ext:=lab) c (zigzag 7) = inr st
    /\ process_signal (ext:=lab) c (zigzag 7) = inr res
    /\ forall k q,
         win_count st !! k = Some (Fin q) -> (q == 0)%Q ->
         res !! k = Some F64.two.
Proof.
  apply (uncovered_positions (ext:=lab)
           (lab_checker binary_clean full (TList [three_quarters]))).
  apply lab_checker_valid. exists three_quarters.
  split; [reflexivity|apply three_quarters_in_unit].
Defined.

(** C2, counterexample.  On a signal of 300 samples, shorter than the
    window of 500, intervals mode with a stride of 250 returns one value,
    not none; in binary_clean mode that value is 2.0, in score mode it is
    not-a-number. *)
Lemma short_signal_one_interval :
  let c := clinic_checker binary_clean intervals (TList [three_quarters]) in
  length (zigzag 300) < input_length c
  /\ process_signal (ext:=clinic) c (zigzag 300) = inr [F64.two]
  /\ process_signal (ext:=clinic) (clinic_checker score intervals TNone)
       (zigzag 300) = inr [NaN].
Proof.
  split; [vm_compute; lia|]. split; vm_compute; reflexivity.
Qed.

Lemma short_signal_witness :
  let c := lab_checker score intervals TNone in
  exists st,
    process_loop (ext:=lab) c (zigzag 3) = inr st
    /\ calls st = []
    /\ process_signal (ext:=lab) c (zigzag 3) = inr (replicate (3 / 2) NaN).
Proof.
  apply (short_signal (ext:=lab) (lab_checker score intervals TNone)
           (zigzag 3)).
  - apply lab_checker_valid. reflexivity.
  - reflexivity.
  - simpl. lia.
Defined.

Lemma interval_contributions_witness :
  let c := lab_checker score intervals TNone in
  exists st,
    interval_loop (ext:=lab) c (zigzag 7) = inr st
    /\ length (output st) = 3
    /\ output st !! 1 = Some (F64.add (F64.add F64.zero half) half)
    /\ win_count st !! 1 = Some (F64.add (F64.add F64.zero F64.one) F64.one).
Proof.
  destruct (interval_contributions (ext:=lab)
              (lab_checker score intervals TNone) (zigzag 7))
    as (plan & st & Hplan & _ & Hloop & Hlen & _ & _ & _ & Hsum).
  - simpl. lia.
  - simpl. lia.
  - exists st. split; [exact Hloop|]. split; [exact Hlen|].
    injection Hplan as <-. exact (Hsum 1 ltac:(simpl; lia)).
Defined.

Lemma threshold_reduction_witness :
  let c := lab_checker three_value full (TList [F64.zero; half]) in
  exists res,
    _calc_precise_scores c [half; F64.zero; F64.zero] [F64.two; F64.one; F64.zero]
    = inr res
    /\ length res = 3.
Proof.
  destruct (threshold_reduction
              (lab_checker three_value full (TList [F64.zero; half]))
              [half; F64.zero; F64.zero] [F64.two; F64.one; F64.zero]
              F64.zero half) as [Hthree _].
  destruct Hthree as (res & Hres & Hlen & _); [reflexivity..|].
  exists res. split; [exact Hres|exact Hlen].
Defined.

Lemma output_length_witness :
  exists res,
    process_signal (ext:=lab) (lab_checker three_value intervals
                                 (TList [F64.zero; half])) (zigzag 7)
    = inr res
    /\ length res = 7 / 2.
Proof.
  apply (output_length (ext:=lab)
           (lab_checker three_value intervals (TList [F64.zero; half]))
           (zigzag 7)).
  - apply lab_checker_valid. exists F64.zero, half.
    split; [reflexivity|]. split; [simpl; split; discriminate|].
    split; [apply half_in_unit|reflexivity].
  - reflexivity.
Defined.

Lemma score_mode_bounded_witness :
  exists res,
    process_signal (ext:=lab) (lab_checker score full TNone) (zigzag 7)
    = inr res
    /\ forall k v, res !! k = Some v -> v <> NaN -> F64.in_unit v.
Proof.
  apply (score_mode_bounded (ext:=lab) (lab_checker score full TNone)
           (zigzag 7)).
  - simpl. lia.
  - simpl. lia.
  - reflexivity.
  - intros w. apply half_in_unit.
Defined.

(** C7, counterexample.  An empty list satisfies the rule as the
    specification words it for score mode, and the constructor rejects
    it. *)
Lemma empty_list_rejected_in_score_mode :
  spec_threshold_rule score (TList [])
  /\ __init__ (ext:=lab) "cnn2s" F64.zero "score" (TList []) "full" 250
       true true tenth
     = inl threshold_count_error.
Proof. split; [by right|reflexivity]. Qed.

Lemma threshold_validation_witness :
  (forall stored,
     check_thresholds three_value (TList [half; tenth]) = inr stored
     <-> accepts three_value (TList [half; tenth]) stored)
  /\ exists self,
       __init__ (ext:=lab) "cnn2s" F64.zero "three_value"
         (TList [half; tenth]) "full" 250 true true tenth = inr self
       /\ thresholds self = TList [tenth; half].
Proof.
  destruct (threshold_validation (ext:=lab) "cnn2s" F64.zero "three_value"
              (TList [half; tenth]) "full" 250 true true tenth three_value)
    as (Hiff & _ & Hbuild & _); [reflexivity|reflexivity|].
  split; [exact Hiff|].
  destruct (Hbuild (TList [tenth; half]) full) as (self & Hself & Hth & _);
    try reflexivity.
  - exists half, tenth. split; [reflexivity|].
    split; [apply half_in_unit|]. split; [|reflexivity].
    simpl. split; discriminate.
  - exists self. split; [exact Hself|exact Hth].
Defined.

Lemma bare_float_threshold_witness :
  __init__ (ext:=lab) "cnn2s" F64.zero "binary_qrs" (TFloat half) "intervals"
    250 true true tenth
  = __init__ (ext:=lab) "cnn2s" F64.zero "binary_qrs" (TList [half])
      "intervals" 250 true true tenth
  /\ exists self,
       __init__ (ext:=lab) "cnn2s" F64.zero "binary_qrs" (TFloat half)
         "intervals" 250 true true tenth = inr self
       /\ thresholds self = TList [half].
Proof.
  destruct (bare_float_threshold (ext:=lab) "cnn2s" F64.zero "binary_qrs" half
              "intervals" 250 true true tenth (or_intror eq_refl))
    as [Hsame Hbuilt].
  split; [exact Hsame|].
  apply Hbuilt; try reflexivity.
  - apply half_in_unit.
  - by exists intervals.
Defined.

(** C4, the run that shows the defect.  The object is built with the
    range check switched off, around a network that answers 0.0 on
    windows of 500 samples.  On a flat window the scorer still answers 1.0
    and never calls the network, and the whole flat signal is graded
    1.0. *)
Lemma check_window_off_still_checked :
  let world := externals 500 250 F64.zero TNone in
  let c := checker 500 250 F64.zero score full TNone false tenth in
  __init__ (ext:=world) "cnn2s" F64.zero "score" TNone "full" 250
    false false tenth = inr c
  /\ check_window c = false
  /\ process_ecg (model c) (flat 500) = F64.zero
  /\ window_score c (flat 500) = inr (F64.one, [])
  /\ process_signal (ext:=world) c (flat 500) = inr (replicate 500 F64.one).
Proof. repeat split; vm_compute; reflexivity. Qed.

(** ** Both loops as one accumulation over the plan *)

Section Accumulation.

Context `{ext : Externals}.

Lemma score_at_eq (self : ECGQualityChecker) (signal : list f64) (start : nat)
  (s : f64) (inv : list (list f64)) :
  window_score self (Np.slice signal start (start + input_length self))
  = inr (s, inv) ->
  score_at self signal start = s /\ invoked_at self signal start = inv.
Proof.
  intros Hs. unfold score_at, invoked_at, window_at. by rewrite Hs.
Qed.

(** A loop whose body adds, for every window of its plan, the window's
    score over the positions from [lo start] to [hi start - 1] ends with
    buffers that hold, position by position, the contributions of the
    windows in plan order, and with the network calls of the windows in
    plan order. *)
Lemma for_each_accumulate (self : ECGQualityChecker) (signal : list f64)
  (body : buffers -> nat -> M buffers) (lo hi : nat -> nat)
  (plan : list nat) (st : buffers) :
  (forall st0 start, start ∈ plan ->
     body st0 start
     = inr (accumulate st0 (lo start) (hi start)
              (score_at self signal start) (invoked_at self signal start))) ->
  exists st',
    for_each body plan st = inr st'
    /\ length (output st') = length (output st)
    /\ length (win_count st') = length (win_count st)
    /\ calls st' = (calls st ++ concat (invoked_at self signal <$> plan))%list
    /\ forall k,
         output st' !! k
         = foldl (fun acc start =>
                    if bool_decide (lo start <= k < hi start)
                    then (fun x => F64.add x (score_at self signal start))
                           <$> acc
                    else acc) (output st !! k) plan
         /\ win_count st' !! k
            = foldl (fun acc start =>
                       if bool_decide (lo start <= k < hi start)
                       then (fun x => F64.add x F64.one) <$> acc
                       else acc) (win_count st !! k) plan.
Proof.
  revert st. induction plan as [|start plan IH]; intros st Hbody; simpl.
  - exists st. by rewrite app_nil_r.
  - rewrite Hbody by left. simpl.
    destruct (IH (accumulate st (lo start) (hi start)
                    (score_at self signal start)
                    (invoked_at self signal start)))
      as (st' & -> & Ho & Hc & Hcalls & Hk).
    { intros st0 x Hx. apply Hbody. by right. }
    exists st'. split; [done|].
    rewrite Ho, Hc, length_output_accumulate, length_win_count_accumulate.
    do 2 (split; [done|]). split.
    { rewrite Hcalls. simpl. by rewrite <- app_assoc. }
    intros k. destruct (Hk k) as [-> ->].
    by rewrite output_accumulate, win_count_accumulate.
Qed.

Lemma full_body_accumulate (self : ECGQualityChecker) (signal : list f64)
  (st : buffers) (start : nat) :
  0 < input_length self -> start + input_length self <= length signal ->
  full_body self signal st start
  = inr (accumulate st start (start + input_length self)
           (score_at self signal start) (invoked_at self signal start)).
Proof.
  intros HL Hb.
  destruct (full_body_inr self signal st start HL Hb) as (s & inv & Hs & ->).
  by destruct (score_at_eq _ _ _ _ _ Hs) as [-> ->].
Qed.

Lemma interval_body_accumulate (self : ECGQualityChecker)
  (signal : list f64) (st : buffers) (start : nat) :
  0 < input_length self -> 0 < stride self ->
  start + input_length self <= length signal ->
  interval_body self signal st start
  = inr (accumulate st (start / stride self)
           ((start + input_length self) / stride self)
           (score_at self signal start) (invoked_at self signal start)).
Proof.
  intros HL HS Hb.
  destruct (interval_body_inr self signal st start HL HS Hb)
    as (s & inv & Hs & ->).
  by destruct (score_at_eq _ _ _ _ _ Hs) as [-> ->].
Qed.

(** What the sample-resolution loop ends with. *)
Lemma full_loop_fold (self : ECGQualityChecker) (signal : list f64) :
  0 < input_length self -> 0 < stride self ->
  let sig := cleaned self signal in
  exists plan st,
    window_plan self sig = inr plan
    /\ full_loop self signal = inr st
    /\ length (output st) = length sig
    /\ length (win_count st) = length sig
    /\ calls st = concat (invoked_at self sig <$> plan)
    /\ forall i, i < length sig ->
         output st !! i
         = Some (foldl (fun acc start =>
                          if covers_full self start i
                          then F64.add acc (score_at self sig start)
                          else acc) F64.zero plan)
         /\ win_count st !! i
            = Some (foldl (fun acc start =>
                             if covers_full self start i
                             then F64.add acc F64.one
                             else acc) F64.zero plan).
Proof.
  intros HL HS sig.
  destruct (window_plan_inr self sig HS) as (plan & Hplan).
  destruct (for_each_accumulate self sig (full_body self sig) id
              (fun start => start + input_length self) plan
              (initial_buffers (length sig)))
    as (st & Hloop & Ho & Hc & Hcalls & Hk).
  { intros st0 start Hin. apply full_body_accumulate; [done|].
    by eapply window_plan_in_bounds. }
  exists plan, st. split; [done|]. split.
  { unfold full_loop. fold sig. rewrite Hplan. exact Hloop. }
  simpl in Ho, Hc. rewrite length_zeros in Ho, Hc.
  do 3 (split; [done|]).
  intros i Hi. destruct (Hk i) as [-> ->]. simpl.
  rewrite lookup_zeros by done. split.
  - apply (foldl_option_fmap (fun start => covers_full self start i)
             (fun start x => F64.add x (score_at self sig start))).
  - apply (foldl_option_fmap (fun start => covers_full self start i)
             (fun _ x => F64.add x F64.one)).
Qed.

(** What the interval-resolution loop ends with. *)
Lemma interval_loop_fold (self : ECGQualityChecker) (signal : list f64) :
  0 < input_length self -> 0 < stride self ->
  let sig := cleaned self signal in
  exists plan st,
    window_plan self sig = inr plan
    /\ interval_loop self signal = inr st
    /\ length (output st) = length sig / stride self
    /\ length (win_count st) = length sig / stride self
    /\ calls st = concat (invoked_at self sig <$> plan)
    /\ forall k, k < length sig / stride self ->
         output st !! k
         = Some (foldl (fun acc start =>
                          if covers self start k
                          then F64.add acc (score_at self sig start)
                          else acc) F64.zero plan)
         /\ win_count st !! k
            = Some (foldl (fun acc start =>
                             if covers self start k
                             then F64.add acc F64.one
                             else acc) F64.zero plan).
Proof.
  intros HL HS sig.
  destruct (window_plan_inr self sig HS) as (plan & Hplan).
  destruct (for_each_accumulate self sig (interval_body self sig)
              (fun start => start / stride self)
              (fun start => (start + input_length self) / stride self) plan
              (initial_buffers (length sig / stride self)))
    as (st & Hloop & Ho & Hc & Hcalls & Hk).
  { intros st0 start Hin. apply interval_body_accumulate; [done|done|].
    by eapply window_plan_in_bounds. }
  exists plan, st. split; [done|]. split.
  { unfold interval_loop. fold sig. rewrite !floordiv_inr by done. simpl.
    rewrite Hplan. exact Hloop. }
  simpl in Ho, Hc. rewrite length_zeros in Ho, Hc.
  do 3 (split; [done|]).
  intros k Hk'. destruct (Hk k) as [-> ->]. simpl.
  rewrite lookup_zeros by done. split.
  - apply (foldl_option_fmap (fun start => covers self start k)
             (fun start x => F64.add x (score_at self sig start))).
  - apply (foldl_option_fmap (fun start => covers self start k)
             (fun _ x => F64.add x F64.one)).
Qed.

End Accumulation.

(** ** Sample resolution, coverage and the two granularities *)

Section Granularity.

Context `{ext : Externals}.

Lemma elem_of_window_plan (self : ECGQualityChecker) (signal : list f64)
  (plan : list nat) (start : nat) :
  window_plan self signal = inr plan ->
  start ∈ plan
  <-> (exists j, start = j * stride self)
      /\ start + input_length self <= length signal.
Proof.
  intros Hplan. unfold window_plan in Hplan.
  rewrite (elem_of_range0 _ _ _ _ Hplan).
  split; intros [Hj Hb]; (split; [done|lia]).
Qed.

(** On a float signal: in full mode the loop returns, and every window of
    the plan adds its score once to the sum, and 1 once to the count, of
    each sample
    from [start] up to but not including [start + input_length], and of
    no other.  That range lies inside the buffers and is not empty.  The
    buffers the loop ends with hold, at every sample, the contributions
    of the whole plan, added in plan order. *)
Lemma full_contributions_float (self : ECGQualityChecker)
  (signal : list f64) :
  0 < input_length self -> 0 < stride self ->
  let sig := cleaned self signal in
  exists plan st,
    window_plan self sig = inr plan
    /\ NoDup plan
    /\ full_loop self signal = inr st
    /\ length (output st) = length sig
    /\ length (win_count st) = length sig
    /\ (forall start, start ∈ plan ->
          start < start + input_length self <= length sig)
    /\ (forall st0 start, start ∈ plan ->
          exists st1,
            full_body self sig st0 start = inr st1
            /\ forall i,
                 output st1 !! i
                 = (if covers_full self start i
                    then (fun x => F64.add x (score_at self sig start))
                           <$> output st0 !! i
                    else output st0 !! i)
                 /\ win_count st1 !! i
                    = (if covers_full self start i
                       then (fun x => F64.add x F64.one) <$> win_count st0 !! i
                       else win_count st0 !! i))
    /\ (forall i, i < length sig ->
          output st !! i
          = Some (foldl (fun acc start =>
                           if covers_full self start i
                           then F64.add acc (score_at self sig start)
                           else acc) F64.zero plan)
          /\ win_count st !! i
             = Some (foldl (fun acc start =>
                              if covers_full self start i
                              then F64.add acc F64.one
                              else acc) F64.zero plan)).
Proof.
  intros HL HS sig.
  destruct (full_loop_fold self signal HL HS)
    as (plan & st & Hplan & Hloop & Ho & Hc & _ & Hk).
  fold sig in Hplan, Ho, Hc, Hk.
  exists plan, st. split; [done|]. split.
  { eapply NoDup_range0. exact Hplan. }
  do 3 (split; [done|]). split; [|split; [|done]].
  - intros start Hin. apply (elem_of_window_plan _ _ _ _ Hplan) in Hin. lia.
  - intros st0 start Hin.
    apply (elem_of_window_plan _ _ _ _ Hplan) in Hin as [_ Hb].
    eexists. split; [by apply full_body_accumulate|].
    intros i. by rewrite output_accumulate, win_count_accumulate.
Qed.

(** The mapper applies [reduction] to every mean. *)
Lemma calc_precise_scores_reduction (self : ECGQualityChecker)
  (scores win_counts : list f64) :
  valid_thresholds (return_mode self) (thresholds self) ->
  _calc_precise_scores self scores win_counts
  = inr (reduction self <$> Np.divide scores win_counts).
Proof.
  unfold valid_thresholds, _calc_precise_scores, reduction.
  destruct (return_mode self).
  - intros _. by rewrite list_fmap_id.
  - intros (t0 & t1 & Hth & _). rewrite Hth.
    by apply get_three_value_inr with [].
  - intros (t0 & Hth & _). rewrite Hth. by apply get_binary_inr with [].
  - intros (t0 & Hth & _). rewrite Hth. by apply get_binary_inr with [].
Qed.

Lemma foldl_ext_in {A B} (f g : A -> B -> A) (l : list B) (a : A) :
  (forall x acc, x ∈ l -> f acc x = g acc x) -> foldl f a l = foldl g a l.
Proof.
  revert a. induction l as [|x l IH]; intros a Hfg; simpl; [done|].
  rewrite Hfg by left. apply IH. intros y acc Hy. apply Hfg. by right.
Qed.

(** When the stride divides the window length, a window covers a sample
    exactly when it covers the interval the sample lies in. *)
Lemma covers_full_covers (self : ECGQualityChecker) (j i : nat) :
  0 < stride self -> (stride self | input_length self) ->
  covers_full self (j * stride self) i
  = covers self (j * stride self) (i / stride self).
Proof.
  intros HS [m Hm]. unfold covers_full, covers. rewrite Hm.
  rewrite Nat.div_mul by lia.
  replace (j * stride self + m * stride self) with ((j + m) * stride self)
    by lia.
  rewrite Nat.div_mul by lia.
  apply bool_decide_ext.
  pose proof (Nat.div_mod_eq i (stride self)) as Hdiv.
  pose proof (Nat.mod_upper_bound i (stride self) ltac:(lia)) as Hmod.
  nia.
Qed.

(** On a float signal: when the stride divides the window length,
    intervals mode is full mode read once per stride: the value full mode
    reports for a
    sample is the value intervals mode reports for the interval the
    sample lies in, for every sample below the last whole stride. *)
Lemma full_matches_intervals_float (self : ECGQualityChecker)
  (signal : list f64) :
  valid_config self ->
  (stride self | input_length self) ->
  exists per_sample per_interval,
    process_signal (with_return_type full self) signal = inr per_sample
    /\ process_signal (with_return_type intervals self) signal
       = inr per_interval
    /\ forall i,
         i < length (cleaned self signal) / stride self * stride self ->
         is_Some (per_sample !! i)
         /\ per_sample !! i = per_interval !! (i / stride self).
Proof.
  intros (HL & HS & Hth) Hdiv.
  destruct (full_loop_fold self signal HL HS)
    as (plan & stf & Hplan & Hfull & _ & _ & _ & Hf).
  destruct (interval_loop_fold self signal HL HS)
    as (plan' & sti & Hplan' & Hint & _ & _ & _ & Hi).
  assert (plan' = plan) as -> by congruence.
  set (sig := cleaned self signal) in *.
  exists (reduction self <$> Np.divide (output stf) (win_count stf)),
    (reduction self <$> Np.divide (output sti) (win_count sti)).
  split.
  { unfold process_signal, _process_signal_full. simpl.
    change (full_loop (with_return_type full self) signal)
      with (full_loop self signal).
    rewrite Hfull.
    exact (calc_precise_scores_reduction (with_return_type full self)
             _ _ Hth). }
  split.
  { unfold process_signal, _process_signal_interval. simpl.
    change (interval_loop (with_return_type intervals self) signal)
      with (interval_loop self signal).
    rewrite Hint.
    exact (calc_precise_scores_reduction (with_return_type intervals self)
             _ _ Hth). }
  intros i Hlt.
  assert (i / stride self < length sig / stride self) as Hk.
  { apply Nat.Div0.div_lt_upper_bound. lia. }
  assert (i < length sig) as Hi'.
  { pose proof (Nat.Div0.mul_div_le (length sig) (stride self)). lia. }
  destruct (Hf i Hi') as [Hfo Hfc]. destruct (Hi _ Hk) as [Hio Hic].
  rewrite !list_lookup_fmap. unfold Np.divide. rewrite !lookup_zip_with.
  rewrite Hfo, Hfc, Hio, Hic. simpl. split; [by eexists|].
  do 3 f_equal.
  - apply foldl_ext_in. intros start acc Hin.
    apply (elem_of_window_plan _ _ _ _ Hplan) in Hin as [[j ->] _].
    by rewrite covers_full_covers.
  - apply foldl_ext_in. intros start acc Hin.
    apply (elem_of_window_plan _ _ _ _ Hplan) in Hin as [[j ->] _].
    by rewrite covers_full_covers.
Qed.

End Granularity.

(** ** Which samples are covered, and which windows reach the network *)

Section Coverage.

Context `{ext : Externals}.

(** A count that starts at zero and grows by one per covering window is at
    least 1 when some window of the plan covers the position and is the
    untouched zero when none does. *)
Lemma count_fold (c : nat -> bool) (plan : list nat) (a : Q) :
  (0 <= a)%Q ->
  exists q,
    foldl (fun acc start => if c start then F64.add acc F64.one else acc)
      (Fin a) plan = Fin q
    /\ (a <= q)%Q
    /\ ((exists start, start ∈ plan /\ c start = true) -> (a + 1 <= q)%Q)
    /\ ((forall start, start ∈ plan -> c start = false) -> q = a).
Proof.
  revert a. induction plan as [|x plan IH]; intros a Ha; simpl.
  - exists a. split; [done|]. split; [lra|]. split; [|done].
    intros (start & Hin & _). by apply elem_of_nil in Hin.
  - destruct (c x) eqn:Hx.
    + destruct (IH (a + 1)%Q ltac:(lra)) as (q & -> & Hq & _ & _).
      exists q. split; [done|]. split; [lra|]. split; [intros _; lra|].
      intros Hnone. rewrite Hnone in Hx by left. done.
    + destruct (IH a Ha) as (q & -> & Hq & Hsome & Hnone).
      exists q. split; [done|]. split; [done|]. split.
      * intros (start & Hin & Hc). apply Hsome. exists start.
        apply elem_of_cons in Hin as [->|Hin]; [congruence|done].
      * intros Hall. apply Hnone. intros start Hin. apply Hall. by right.
Qed.

(** X3.  In full mode, with a stride of at most the window length and a
    signal at least one window long, exactly the last
    [(N - input_length) mod stride] samples are covered by no window:
    every earlier sample has a count of at least 1, every sample from
    there on keeps the zero sum and count it was allocated with. *)
Theorem full_coverage (self : ECGQualityChecker) (signal : list f64) :
  0 < stride self -> stride self <= input_length self ->
  input_length self <= length (cleaned self signal) ->
  let N := length (cleaned self signal) in
  let covered := N - (N - input_length self) mod stride self in
  exists st,
    full_loop self signal = inr st
    /\ forall i, i < N ->
         (i < covered ->
          exists c, win_count st !! i = Some (Fin c) /\ (1 <= c)%Q)
         /\ (covered <= i ->
             win_count st !! i = Some F64.zero
             /\ output st !! i = Some F64.zero).
Proof.
  intros HS HSL HLN N covered.
  assert (0 < input_length self) as HL by lia.
  destruct (full_loop_fold self signal HL HS)
    as (plan & st & Hplan & Hloop & _ & _ & _ & Hfold).
  fold N in Hfold. exists st. split; [done|].
  intros i Hi. destruct (Hfold i Hi) as [Hout Hcnt].
  pose proof (Nat.div_mod_eq (N - input_length self) (stride self)) as Hlast.
  pose proof (Nat.mod_upper_bound (N - input_length self) (stride self)
                ltac:(lia)) as Hmod.
  set (jmax := (N - input_length self) / stride self) in *.
  assert (covered = input_length self + stride self * jmax) as Hcovered
    by (subst covered; lia).
  assert (N = input_length self + stride self * jmax
              + (N - input_length self) mod stride self) as HN by lia.
  clearbody covered jmax.
  set (r := (N - input_length self) mod stride self) in *. clearbody r.
  clear Hlast.
  destruct (count_fold (fun start => covers_full self start i) plan 0
              ltac:(lra)) as (q & Hq & _ & Hsome & Hnone).
  change (Fin 0) with F64.zero in Hq.
  split.
  - intros Hcov. exists q. rewrite Hcnt, Hq. split; [done|].
    assert (0 + 1 <= q)%Q; [|lra]. apply Hsome.
    pose proof (Nat.div_mod_eq i (stride self)) as Hidiv.
    pose proof (Nat.mod_upper_bound i (stride self) ltac:(lia)) as Himod.
    exists (Nat.min (i / stride self) jmax * stride self). split.
    + apply (elem_of_window_plan _ _ _ _ Hplan). split; [eauto|].
      fold N.
      destruct (Nat.min_spec (i / stride self) jmax) as [[? ->]|[? ->]]; nia.
    + unfold covers_full. apply bool_decide_eq_true.
      destruct (Nat.min_spec (i / stride self) jmax) as [[? ->]|[? ->]]; nia.
  - intros Hunc.
    assert (forall start, start ∈ plan -> covers_full self start i = false)
      as Hno.
    { intros start Hin.
      apply (elem_of_window_plan _ _ _ _ Hplan) in Hin as [[j ->] Hb].
      fold N in Hb. unfold covers_full. apply bool_decide_eq_false.
      assert (j <= jmax) by nia. nia. }
    rewrite Hcnt, Hout, Hq, (Hnone Hno). split; [done|].
    f_equal. clear -Hno. induction plan as [|x plan IH]; simpl; [done|].
    rewrite Hno by left. apply IH. intros start Hin. apply Hno. by right.
Qed.

End Coverage.

(** ** The windows that reach the network *)

Section Calls.

Context `{ext : Externals}.

Lemma invoked_at_cases (self : ECGQualityChecker) (signal : list f64)
  (start : nat) :
  invoked_at self signal start = []
  \/ invoked_at self signal start = [window_at self signal start].
Proof.
  unfold invoked_at, window_score.
  destruct (_check_window_smaller self _) as [e|[]]; simpl; auto.
Qed.

Lemma invoked_sublist (self : ECGQualityChecker) (signal : list f64)
  (plan : list nat) :
  concat (invoked_at self signal <$> plan)
    `sublist_of` (window_at self signal <$> plan).
Proof.
  induction plan as [|start plan IH]; simpl; [constructor|].
  destruct (invoked_at_cases self signal start) as [-> | ->]; simpl.
  - by apply sublist_cons.
  - by apply sublist_skip.
Qed.

(** The plan holds one window per whole stride that fits in front of the
    last window. *)
Lemma window_plan_length (self : ECGQualityChecker) (signal : list f64)
  (plan : list nat) :
  window_plan self signal = inr plan ->
  length plan
  = if length signal <? input_length self then 0
    else (length signal - input_length self) / stride self + 1.
Proof.
  intros Hplan. unfold window_plan, range0 in Hplan.
  destruct (Nat.eqb_spec (stride self) 0) as [|HS]; [done|].
  destruct (range0_inr (Z.of_nat (length signal)
                        - Z.of_nat (input_length self) + 1) (stride self)
              ltac:(lia)) as (n & Hr & Hn).
  unfold range0 in Hr. destruct (Nat.eqb_spec (stride self) 0); [lia|].
  assert (plan = (fun k => k * stride self) <$> seq 0 n) as -> by congruence.
  rewrite length_fmap, length_seq.
  destruct (Nat.ltb_spec (length signal) (input_length self)) as [Hlt|Hge].
  - destruct n as [|n]; [done|]. specialize (Hn 0). lia.
  - pose proof (Nat.div_mod_eq (length signal - input_length self)
                  (stride self)) as Hdiv.
    pose proof (Nat.mod_upper_bound (length signal - input_length self)
                  (stride self) ltac:(lia)) as Hmod.
    set (j := (length signal - input_length self) / stride self) in *.
    pose proof (Hn j) as Hj. pose proof (Hn (j + 1)) as Hj1.
    clearbody j. nia.
Qed.

(** X4.  In either granularity the network only ever receives whole
    windows of the plan, in plan order: every recorded call is a slice of
    exactly [input_length] samples of the cleaned signal that starts at a
    multiple of the stride, and there are at most
    [(N - input_length) // stride + 1] calls (none when the signal is
    shorter than a window). *)
Theorem network_calls (self : ECGQualityChecker) (signal : list f64) :
  0 < input_length self -> 0 < stride self ->
  let sig := cleaned self signal in
  exists plan st,
    window_plan self sig = inr plan
    /\ process_loop self signal = inr st
    /\ calls st `sublist_of` (window_at self sig <$> plan)
    /\ (forall w, w ∈ calls st ->
          length w = input_length self
          /\ exists j, w = Np.slice sig (j * stride self)
                             (j * stride self + input_length self))
    /\ length (calls st)
       <= (if length sig <? input_length self then 0
           else (length sig - input_length self) / stride self + 1).
Proof.
  intros HL HS sig.
  assert (exists plan st,
            window_plan self sig = inr plan
            /\ process_loop self signal = inr st
            /\ calls st = concat (invoked_at self sig <$> plan))
    as (plan & st & Hplan & Hloop & Hcalls).
  { unfold process_loop. destruct (return_type self).
    - destruct (full_loop_fold self signal HL HS)
        as (plan & st & ? & ? & _ & _ & ? & _). by exists plan, st.
    - destruct (interval_loop_fold self signal HL HS)
        as (plan & st & ? & ? & _ & _ & ? & _). by exists plan, st. }
  exists plan, st. do 2 (split; [done|]).
  assert (calls st `sublist_of` (window_at self sig <$> plan)) as Hsub.
  { rewrite Hcalls. apply invoked_sublist. }
  split; [done|]. split.
  - intros w Hw.
    pose proof (elem_of_submseteq _ _ _ Hw (sublist_submseteq _ _ Hsub))
      as Hw'. clear Hw. rename Hw' into Hw.
    apply list_elem_of_fmap in Hw as (start & -> & Hin).
    apply (elem_of_window_plan _ _ _ _ Hplan) in Hin as [[j ->] Hb].
    split; [by apply length_slice_full|]. by exists j.
  - rewrite <- (window_plan_length self sig plan Hplan).
    apply sublist_length in Hsub. by rewrite length_fmap in Hsub.
Qed.

(** X5.  The granularity does not change which windows are graded: the
    sample-resolution loop and the interval-resolution loop hand the same
    windows to the network, in the same order. *)
Theorem granularity_same_calls (self : ECGQualityChecker)
  (signal : list f64) :
  0 < input_length self -> 0 < stride self ->
  exists per_sample per_interval,
    full_loop self signal = inr per_sample
    /\ interval_loop self signal = inr per_interval
    /\ calls per_sample = calls per_interval.
Proof.
  intros HL HS.
  destruct (full_loop_fold self signal HL HS)
    as (plan & stf & Hplan & Hfull & _ & _ & Hcf & _).
  destruct (interval_loop_fold self signal HL HS)
    as (plan' & sti & Hplan' & Hint & _ & _ & Hci & _).
  assert (plan' = plan) as -> by congruence.
  exists stf, sti. by rewrite Hcf, Hci.
Qed.

End Calls.

(** ** The range check *)

Section RangeCheck.

Context `{ext : Externals}.

(** Comparisons of finite values, as propositions over the rationals. *)
Ltac order_to_Q :=
  repeat match goal with
    | H : negb _ = true |- _ => apply negb_true_iff in H
    | H : negb _ = false |- _ => apply negb_false_iff in H
    | H : Qle_bool _ _ = true |- _ => apply Qle_bool_iff in H
    | H : Qle_bool ?a ?b = false |- _ =>
        assert (~ (a <= b)%Q) by (rewrite <- Qle_bool_iff; congruence);
        clear H
    | |- negb _ = true => apply negb_true_iff
    | |- negb _ = false => apply negb_false_iff
    | |- Qle_bool _ _ = true => apply Qle_bool_iff
    | |- Qle_bool ?a ?b = false =>
        destruct (Qle_bool a b) eqn:?; [exfalso|reflexivity]
    end.

(** The smallest and the largest value so far: both not-a-number, or two
    numbers in order. *)
Lemma min_max_step (a b x : f64) :
  (a = NaN /\ b = NaN) \/ (a <> NaN /\ b <> NaN /\ F64.leb a b = true) ->
  (F64.min a x = NaN /\ F64.max b x = NaN)
  \/ (F64.min a x <> NaN /\ F64.max b x <> NaN
      /\ F64.leb (F64.min a x) (F64.max b x) = true).
Proof.
  intros [[-> ->]|(Ha & Hb & Hab)]; [by left|].
  destruct x as [| | |x]; [left; by destruct a, b|..];
    right; destruct a as [| | |a], b as [| | |b]; try done;
    unfold F64.min, F64.max; simpl in *;
    repeat match goal with
      | |- context [Qle_bool ?u ?v] => destruct (Qle_bool u v) eqn:?
      end; simpl; repeat split; try done; order_to_Q; lra.
Qed.

Lemma min_max_fold (l : list f64) (a b : f64) :
  (a = NaN /\ b = NaN) \/ (a <> NaN /\ b <> NaN /\ F64.leb a b = true) ->
  (foldl F64.min a l = NaN /\ foldl F64.max b l = NaN)
  \/ (foldl F64.min a l <> NaN /\ foldl F64.max b l <> NaN
      /\ F64.leb (foldl F64.min a l) (foldl F64.max b l) = true).
Proof.
  revert a b. induction l as [|x l IH]; intros a b Hab; simpl; [done|].
  apply IH. by apply min_max_step.
Qed.




Lemma foldl_min_nan (l : list f64) (a : f64) :
  a = NaN \/ NaN ∈ l -> foldl F64.min a l = NaN.
Proof.
  revert a. induction l as [|x l IH]; intros a [Ha|Hin]; simpl.
  - done.
  - by apply elem_of_nil in Hin.
  - apply IH. left. by rewrite Ha.
  - apply IH. apply elem_of_cons in Hin as [<-|Hin]; [left|by right].
    by destruct a.
Qed.

(** X7.  A window that holds a not-a-number sample is never forced to
    1.0: its range is not-a-number, which is below no minimum range, so
    the window is handed to the network whatever the minimum range. *)
Theorem nan_sample_bypasses_check (self : ECGQualityChecker)
  (w : list f64) :
  NaN ∈ w ->
  _check_window_smaller self w = inr false
  /\ window_score self w = inr (process_ecg (model self) w, [w]).
Proof.
  intros Hnan. destruct w as [|x w]; [by apply elem_of_nil in Hnan|].
  assert (foldl F64.min x w = NaN) as Hlo.
  { apply foldl_min_nan. apply elem_of_cons in Hnan as [<-|?]; auto. }
  assert (foldl F64.max x w = NaN) as Hhi.
  { destruct (min_max_fold w x x) as [[_ ?]|(? & _)]; [|done|done].
    destruct x; [by left|right..]; repeat split; try done.
    simpl. by apply Qle_bool_iff, Qle_refl. }
  assert (_check_window_smaller self (x :: w) = inr false) as Hcheck.
  { unfold _check_window_smaller. simpl. by rewrite Hlo, Hhi. }
  split; [done|]. unfold window_score. by rewrite Hcheck.
Qed.




End RangeCheck.

(** ** Interval coverage, categorical outputs and failures of a call *)

Section Outputs.

Context `{ext : Externals}.

(** X9.  In intervals mode, when the stride divides the window length and
    the signal is at least one window long, every interval of the output
    is covered by a window: no count is zero. *)
Theorem interval_coverage (self : ECGQualityChecker) (signal : list f64) :
  0 < stride self -> 0 < input_length self ->
  (stride self | input_length self) ->
  input_length self <= length (cleaned self signal) ->
  exists st,
    interval_loop self signal = inr st
    /\ length (win_count st) = length (cleaned self signal) / stride self
    /\ forall k, k < length (cleaned self signal) / stride self ->
         exists c, win_count st !! k = Some (Fin c) /\ (1 <= c)%Q.
Proof.
  intros HS HL [m Hm] HLN.
  destruct (interval_loop_fold self signal HL HS)
    as (plan & st & Hplan & Hloop & _ & Hlen & _ & Hfold).
  set (N := length (cleaned self signal)) in *.
  exists st. do 2 (split; [done|]). intros k Hk.
  destruct (Hfold k Hk) as [_ Hcnt].
  destruct (count_fold (fun start => covers self start k) plan 0
              ltac:(lra)) as (q & Hq & _ & Hsome & _).
  change (Fin 0) with F64.zero in Hq.
  exists q. rewrite Hcnt, Hq. split; [done|].
  assert (0 + 1 <= q)%Q; [|lra]. apply Hsome.
  pose proof (Nat.div_mod_eq N (stride self)) as HdivN.
  pose proof (Nat.mod_upper_bound N (stride self) ltac:(lia)) as HmodN.
  assert (m <= N / stride self) as Hm_le.
  { clear -HS Hm HLN. clearbody N. apply Nat.div_le_lower_bound; [lia|].
    rewrite Hm in HLN. lia. }
  assert (0 < m) as Hm_pos by (destruct m; [simpl in Hm|]; lia).
  set (j := Nat.min k (N / stride self - m)).
  assert (j <= k /\ k < j + m /\ j + m <= N / stride self)
    as (Hjk & Hkj & Hjm) by lia.
  clearbody j.
  exists (j * stride self). split.
  - apply (elem_of_window_plan _ _ _ _ Hplan). split; [eauto|].
    fold N. rewrite Hm. nia.
  - unfold covers. apply bool_decide_eq_true. rewrite Hm.
    replace (j * stride self + m * stride self) with ((j + m) * stride self)
      by lia.
    rewrite !Nat.div_mul by lia. lia.
Qed.

(** X10.  The categorical modes never report not-a-number: for a valid
    configuration every value of the output, covered or not, is 1.0 or
    2.0 in a binary mode and 1.0, 2.0 or 3.0 in three-value mode. *)
Theorem categorical_outputs (self : ECGQualityChecker) (signal : list f64) :
  valid_config self ->
  return_mode self <> score ->
  exists res,
    process_signal self signal = inr res
    /\ forall k v, res !! k = Some v ->
         v = F64.one \/ v = F64.two
         \/ (return_mode self = three_value /\ v = F64.three).
Proof.
  intros (HL & HS & Hth) Hmode.
  destruct (process_loop_length self signal HL HS) as (st & Hloop & _).
  exists (reduction self <$> Np.divide (output st) (win_count st)). split.
  { rewrite process_signal_loop, Hloop.
    by apply calc_precise_scores_reduction. }
  intros k v. rewrite list_lookup_fmap.
  destruct (Np.divide (output st) (win_count st) !! k) as [m|]; [|done].
  simpl. intros [= <-]. unfold reduction, valid_thresholds in *.
  destruct (return_mode self); [done|..].
  - destruct Hth as (t0 & t1 & -> & _). unfold mapper_of.
    destruct (F64.ltb m t0); [auto|]. destruct (F64.ltb m t1); auto.
  - destruct Hth as (t0 & -> & _). unfold binary_of.
    destruct (F64.ltb m t0); auto.
  - destruct Hth as (t0 & -> & _). unfold binary_of.
    destruct (F64.ltb m t0); auto.
Qed.

(** X11.  Three-value mode with thresholds [t0 <= t1] is the two binary
    cuts put together: on the same signal a position is 1.0 exactly when
    binary_clean with threshold [t0] reports 1.0, it is 3.0 exactly when
    binary_qrs with threshold [t1] reports 2.0, and it is 2.0 in between.
    This holds at every position, uncovered ones included. *)
Theorem three_value_as_two_cuts (self : ECGQualityChecker)
  (signal : list f64) (t0 t1 : f64) :
  0 < input_length self -> 0 < stride self ->
  F64.leb t0 t1 = true ->
  exists three clean qrs,
    process_signal (with_thresholds three_value (TList [t0; t1]) self) signal
    = inr three
    /\ process_signal (with_thresholds binary_clean (TList [t0]) self) signal
       = inr clean
    /\ process_signal (with_thresholds binary_qrs (TList [t1]) self) signal
       = inr qrs
    /\ length clean = length three /\ length qrs = length three
    /\ forall k,
         (three !! k = Some F64.one <-> clean !! k = Some F64.one)
         /\ (three !! k = Some F64.three <-> qrs !! k = Some F64.two)
         /\ (three !! k = Some F64.two
             <-> clean !! k = Some F64.two /\ qrs !! k = Some F64.one).
Proof.
  intros HL HS Hle.
  destruct (process_loop_length self signal HL HS) as (st & Hloop & _).
  set (means := Np.divide (output st) (win_count st)).
  exists (mapper_of t0 t1 <$> means), (binary_of t0 <$> means),
    (binary_of t1 <$> means).
  assert (forall mode th,
            process_signal (with_thresholds mode th self) signal
            = _calc_precise_scores (with_thresholds mode th self)
                (output st) (win_count st)) as Hrun.
  { intros mode th. rewrite process_signal_loop.
    change (process_loop (with_thresholds mode th self) signal)
      with (process_loop self signal).
    by rewrite Hloop. }
  rewrite !Hrun. unfold _calc_precise_scores. simpl.
  rewrite (get_three_value_inr _ _ t0 t1 []) by done.
  rewrite (get_binary_inr _ _ t0 []) by done.
  rewrite (get_binary_inr _ _ t1 []) by done.
  do 3 (split; [done|]). rewrite !length_fmap. do 2 (split; [done|]).
  intros k. rewrite !list_lookup_fmap.
  destruct (means !! k) as [m|]; simpl; [|by repeat split; intros; intuition].
  unfold mapper_of, binary_of.
  pose proof (ltb_leb_trans m t0 t1) as Htr.
  destruct categories_distinct as (D12 & D13 & D23).
  destruct (F64.ltb m t0) eqn:L0; [rewrite (Htr eq_refl Hle)|];
    [|destruct (F64.ltb m t1)];
    repeat split; intros; try done; try congruence;
    try (exfalso; intuition congruence).
Qed.

End Outputs.

(** ** Failures of a call and of the constructor *)

Section Failures.

Context `{ext : Externals}.

(** With a positive stride the plan of a zero-length window starts at
    offset 0. *)
Lemma window_plan_zero_length (self : ECGQualityChecker) (signal : list f64) :
  0 < stride self -> input_length self = 0 ->
  exists plan, window_plan self signal = inr (0 :: plan).
Proof.
  intros HS HL. unfold window_plan.
  destruct (range0_inr (Z.of_nat (length signal)
                        - Z.of_nat (input_length self) + 1) (stride self) HS)
    as ([|n] & -> & Hn).
  - specialize (Hn 0). lia.
  - simpl. eauto.
Qed.

(** X12.  A call fails before it grades anything when the stored stride or
    window length is zero.  A zero stride raises ZeroDivisionError in
    intervals mode and the ValueError of [range] in full mode; a zero
    window length raises the ValueError of [np.min] on an empty window.
    The loop returns exactly when both are positive. *)
Theorem process_signal_failures (self : ECGQualityChecker)
  (signal : list f64) :
  (stride self = 0 ->
   process_signal self signal
   = inl (match return_type self with
          | full => ValueError "range() arg 3 must not be zero"
          | intervals =>
              ZeroDivisionError "integer division or modulo by zero"
          end))
  /\ (0 < stride self -> input_length self = 0 ->
      process_signal self signal = inl (Np.empty_reduction "minimum"))
  /\ ((exists st, process_loop self signal = inr st)
      <-> 0 < stride self /\ 0 < input_length self).
Proof.
  assert (stride self = 0 ->
          process_loop self signal
          = inl (match return_type self with
                 | full => ValueError "range() arg 3 must not be zero"
                 | intervals =>
                     ZeroDivisionError "integer division or modulo by zero"
                 end)) as Hstride.
  { intros HS. unfold process_loop, full_loop, interval_loop, window_plan,
      range0, floordiv.
    rewrite HS. by destruct (return_type self). }
  assert (0 < stride self -> input_length self = 0 ->
          process_loop self signal = inl (Np.empty_reduction "minimum"))
    as Hlength.
  { intros HS HL.
    destruct (window_plan_zero_length self (cleaned self signal) HS HL)
      as (plan & Hplan).
    unfold process_loop, full_loop, interval_loop.
    destruct (return_type self).
    - rewrite Hplan. simpl. unfold full_body. rewrite HL. reflexivity.
    - rewrite !floordiv_inr by done. simpl. rewrite Hplan. simpl.
      unfold interval_body. rewrite !floordiv_inr by done. simpl.
      rewrite HL. reflexivity. }
  split; [|split].
  - intros HS. by rewrite process_signal_loop, (Hstride HS).
  - intros HS HL. by rewrite process_signal_loop, (Hlength HS HL).
  - split.
    + intros (st & Hst).
      destruct (Nat.eq_dec (stride self) 0) as [HS|HS];
        [by rewrite (Hstride HS) in Hst|].
      destruct (Nat.eq_dec (input_length self) 0) as [HL|HL];
        [by rewrite (Hlength ltac:(lia) HL) in Hst|].
      lia.
    + intros [HS HL].
      destruct (process_loop_length self signal HL HS) as (st & Hst & _).
      eauto.
Qed.

(** X13.  Thresholds without a length fail the constructor with a
    TypeError, not with a threshold error: a registry that has no default
    for a categorical mode, and a bare float in three-value mode even
    when it lies between 0 and 1. *)
Theorem thresholds_without_length (model_name : string) (ratio : f64)
  (mode_name : string) (arg : thresholds_arg) (type_name : string)
  (rate : Z) (clean check : bool) (range : f64) (mode : ReturnMode) :
  py_in model_name MODEL_PATH_DICT = true ->
  parse_return_mode mode_name = Some mode ->
  mode <> score ->
  let new := __init__ model_name ratio mode_name arg type_name rate clean
               check range in
  (effective_thresholds model_name mode_name arg = TNone ->
   new = inl (TypeError "object of type 'NoneType' has no len()"))
  /\ (forall t, arg = TFloat t -> mode = three_value ->
        new = inl (TypeError "object of type 'float' has no len()")).
Proof.
  intros Hmodel Hmode Hscore new. subst new.
  rewrite (init_after_mode _ _ _ _ _ _ _ _ _ mode Hmodel Hmode). split.
  - intros ->. by destruct mode.
  - intros t -> ->. reflexivity.
Qed.

(** X14.  What every object the constructor returns satisfies: the model
    is registered, the sampling rate is 250, the stride ratio is not
    below zero, the mode and the granularity are the parsed names, the
    window length is the model's, the stride is the one resolved from
    that length and the ratio, the three flags are stored as passed, and
    the thresholds are valid for the mode. *)
Theorem constructed_object (model_name : string) (ratio : f64)
  (mode_name : string) (arg : thresholds_arg) (type_name : string)
  (rate : Z) (clean check : bool) (range : f64) (self : ECGQualityChecker) :
  __init__ model_name ratio mode_name arg type_name rate clean check range
  = inr self ->
  py_in model_name MODEL_PATH_DICT = true
  /\ parse_return_mode mode_name = Some (return_mode self)
  /\ parse_return_type type_name = Some (return_type self)
  /\ rate = 250%Z /\ sampling_rate self = 250%Z
  /\ F64.ltb ratio F64.zero = false
  /\ model self = load_tf_model model_name
  /\ input_length self = get_input_length (load_tf_model model_name)
  /\ stride self = get_stride_length (input_length self) ratio 250%Z
  /\ clean_data self = clean
  /\ check_window self = check
  /\ min_window self = range
  /\ valid_thresholds (return_mode self) (thresholds self).
Proof.
  intros Hnew.
  pose proof (init_valid_thresholds _ _ _ _ _ _ _ _ _ _ Hnew) as Hvalid.
  destruct (py_in model_name MODEL_PATH_DICT) eqn:Hmodel;
    [|by unfold __init__ in Hnew; rewrite Hmodel in Hnew].
  destruct (parse_return_mode mode_name) as [mode|] eqn:Hmode;
    [|by unfold __init__ in Hnew; rewrite Hmodel, Hmode in Hnew].
  rewrite (init_after_mode _ _ _ _ _ _ _ _ _ mode Hmodel Hmode) in Hnew.
  destruct (check_thresholds mode _) as [e|stored]; simpl in Hnew; [done|].
  destruct (parse_return_type type_name) as [rtype|]; [|done].
  destruct (Z.eqb_spec rate 250) as [->|]; simpl in Hnew; [|done].
  destruct (F64.ltb ratio F64.zero); [done|].
  injection Hnew as <-. simpl. by repeat split.
Qed.

End Failures.

(** ** The further properties on the test bench *)

Lemma full_coverage_witness :
  exists st,
    full_loop (ext:=lab) (lab_checker score full TNone) (zigzag 7) = inr st
    /\ forall i, i < 7 ->
         (i < 6 -> exists c, win_count st !! i = Some (Fin c) /\ (1 <= c)%Q)
         /\ (6 <= i ->
             win_count st !! i = Some F64.zero
             /\ output st !! i = Some F64.zero).
Proof.
  apply (full_coverage (ext:=lab) (lab_checker score full TNone) (zigzag 7));
    simpl; lia.
Defined.

Lemma network_calls_witness :
  exists st,
    process_loop (ext:=lab) (lab_checker score intervals TNone) (zigzag 7)
    = inr st
    /\ (forall w, w ∈ calls st -> length w = 4)
    /\ length (calls st) <= 2.
Proof.
  destruct (network_calls (ext:=lab) (lab_checker score intervals TNone)
              (zigzag 7))
    as (plan & st & _ & Hloop & _ & Hlen & Hcount).
  - simpl. lia.
  - simpl. lia.
  - exists st. split; [exact Hloop|]. split; [|exact Hcount].
    intros w Hw. exact (proj1 (Hlen w Hw)).
Defined.

Lemma granularity_same_calls_witness :
  exists per_sample per_interval,
    full_loop (ext:=lab) (lab_checker score full TNone) (zigzag 7)
    = inr per_sample
    /\ interval_loop (ext:=lab) (lab_checker score full TNone) (zigzag 7)
       = inr per_interval
    /\ calls per_sample = calls per_interval.
Proof.
  apply (granularity_same_calls (ext:=lab) (lab_checker score full TNone)
           (zigzag 7)); simpl; lia.
Defined.


Lemma nan_sample_bypasses_check_witness :
  let c := lab_checker score full TNone in
  _check_window_smaller c [F64.zero; NaN; F64.zero; F64.zero] = inr false
  /\ window_score c [F64.zero; NaN; F64.zero; F64.zero]
     = inr (half, [[F64.zero; NaN; F64.zero; F64.zero]]).
Proof.
  apply (nan_sample_bypasses_check (lab_checker score full TNone)
           [F64.zero; NaN; F64.zero; F64.zero]).
  apply elem_of_cons. right. apply elem_of_cons. by left.
Defined.


Lemma interval_coverage_witness :
  exists st,
    interval_loop (ext:=lab) (lab_checker score intervals TNone) (zigzag 7)
    = inr st
    /\ length (win_count st) = 3
    /\ forall k, k < 3 ->
         exists c, win_count st !! k = Some (Fin c) /\ (1 <= c)%Q.
Proof.
  apply (interval_coverage (ext:=lab) (lab_checker score intervals TNone)
           (zigzag 7)).
  - simpl. lia.
  - simpl. lia.
  - exists 2. reflexivity.
  - simpl. lia.
Defined.

Lemma categorical_outputs_witness :
  let c := lab_checker binary_qrs full (TList [three_quarters]) in
  exists res,
    process_signal (ext:=lab) c (zigzag 7) = inr res
    /\ forall k v, res !! k = Some v ->
         v = F64.one \/ v = F64.two
         \/ (binary_qrs = three_value /\ v = F64.three).
Proof.
  apply (categorical_outputs (ext:=lab)
           (lab_checker binary_qrs full (TList [three_quarters])) (zigzag 7)).
  - apply lab_checker_valid. exists three_quarters.
    split; [reflexivity|apply three_quarters_in_unit].
  - discriminate.
Defined.

Lemma three_value_as_two_cuts_witness :
  let c := lab_checker score full TNone in
  exists three clean qrs,
    process_signal (ext:=lab)
      (with_thresholds three_value (TList [tenth; three_quarters]) c)
      (zigzag 7) = inr three
    /\ process_signal (ext:=lab)
         (with_thresholds binary_clean (TList [tenth]) c) (zigzag 7)
       = inr clean
    /\ process_signal (ext:=lab)
         (with_thresholds binary_qrs (TList [three_quarters]) c) (zigzag 7)
       = inr qrs
    /\ length clean = length three /\ length qrs = length three
    /\ forall k,
         (three !! k = Some F64.one <-> clean !! k = Some F64.one)
         /\ (three !! k = Some F64.three <-> qrs !! k = Some F64.two)
         /\ (three !! k = Some F64.two
             <-> clean !! k = Some F64.two /\ qrs !! k = Some F64.one).
Proof.
  apply (three_value_as_two_cuts (ext:=lab) (lab_checker score full TNone)
           (zigzag 7) tenth three_quarters).
  - simpl. lia.
  - simpl. lia.
  - reflexivity.
Defined.

Lemma thresholds_without_length_witness :
  __init__ (ext:=lab) "cnn2s" F64.zero "three_value" TNone "full" 250
    true true tenth
  = inl (TypeError "object of type 'NoneType' has no len()")
  /\ __init__ (ext:=lab) "cnn2s" F64.zero "three_value" (TFloat half)
       "full" 250 true true tenth
     = inl (TypeError "object of type 'float' has no len()").
Proof.
  split.
  - apply (thresholds_without_length (ext:=lab) "cnn2s" F64.zero
             "three_value" TNone "full" 250 true true tenth three_value);
      (reflexivity || discriminate).
  - apply (proj2 (thresholds_without_length (ext:=lab) "cnn2s" F64.zero
                    "three_value" (TFloat half) "full" 250 true true tenth
                    three_value eq_refl eq_refl ltac:(discriminate))
             half eq_refl eq_refl).
Defined.

Lemma constructed_object_witness :
  let c := checker 4 2 half binary_clean intervals (TList [half]) true tenth in
  return_mode c = binary_clean
  /\ stride c = 2
  /\ valid_thresholds (return_mode c) (thresholds c).
Proof.
  destruct (constructed_object (ext:=lab) "cnn5s" F64.zero "binary_clean"
              (TFloat half) "intervals" 250 false true tenth
              (checker 4 2 half binary_clean intervals (TList [half]) true
                 tenth) eq_refl)
    as (_ & _ & _ & _ & _ & _ & _ & _ & Hstride & _ & _ & _ & Hvalid).
  split; [reflexivity|]. split; [exact Hstride|exact Hvalid].
Defined.

(** ** Signals of any dtype *)

Section Typed.

Context `{ext : Externals}.

Lemma for_each_ext {S A} (f g : S -> A -> M S) (l : list A) (s : S) :
  (forall s x, x ∈ l -> f s x = g s x) -> for_each f l s = for_each g l s.
Proof.
  revert s. induction l as [|x l IH]; intros s Hfg; simpl; [done|].
  rewrite Hfg by left. destruct (g s x) as [e|s']; simpl; [done|].
  apply IH. intros s0 y Hy. apply Hfg. by right.
Qed.

Lemma accumulate_typed_float (st : buffers) (a b : nat) (s : f64)
  (inv : list (list f64)) :
  accumulate_typed float64 st a b s inv = accumulate st a b s inv.
Proof.
  unfold accumulate_typed, accumulate. simpl. by rewrite !list_fmap_id.
Qed.

(** On a float signal, and on any signal when the cleaner runs, the
    sample-resolution loop is the loop over float buffers. *)
Lemma full_loop_typed_float (self : ECGQualityChecker) (signal : ndarray) :
  clean_data self = true \/ dtype_of signal = float64 ->
  dtype_of (cleaned_typed self signal) = float64
  /\ data (cleaned_typed self signal) = cleaned self (data signal)
  /\ full_loop_typed self signal = full_loop self (data signal).
Proof.
  intros Hfloat.
  assert (dtype_of (cleaned_typed self signal) = float64) as Hdt.
  { unfold cleaned_typed. destruct (clean_data self); [done|].
    by destruct Hfloat. }
  assert (data (cleaned_typed self signal) = cleaned self (data signal))
    as Hdata.
  { unfold cleaned_typed, cleaned. by destruct (clean_data self). }
  do 2 (split; [done|]).
  unfold full_loop_typed, full_loop, zeros_like, Np.zeros_like. simpl.
  rewrite Hdata.
  destruct (window_plan self (cleaned self (data signal))) as [e|plan];
    simpl; [done|].
  apply for_each_ext. intros st start _.
  unfold full_body_typed, full_body. rewrite Hdt, Hdata.
  destruct (window_score self _) as [e|[s inv]]; simpl; [done|].
  by rewrite accumulate_typed_float.
Qed.

Lemma process_signal_typed_float (self : ECGQualityChecker)
  (signal : ndarray) :
  clean_data self = true \/ dtype_of signal = float64 ->
  process_signal_typed self signal = process_signal self (data signal).
Proof.
  intros Hfloat. unfold process_signal_typed, process_signal,
    _process_signal_full.
  destruct (return_type self); [|done].
  by destruct (full_loop_typed_float self signal Hfloat) as (_ & _ & ->).
Qed.

End Typed.

Section TypedResults.

Context `{ext : Externals}.

Lemma full_body_typed_float (self : ECGQualityChecker) (signal : ndarray)
  (st : buffers) (start : nat) :
  dtype_of signal = float64 ->
  full_body_typed self signal st start
  = full_body self (data signal) st start.
Proof.
  intros Hdt. unfold full_body_typed, full_body. rewrite Hdt.
  destruct (window_score self _) as [e|[s inv]]; simpl; [done|].
  by rewrite accumulate_typed_float.
Qed.

(** X1.  In full mode, on a float signal or with the cleaner on (the
    buffers are then arrays of floats), the loop returns, and every
    window of the plan adds its score once to the sum, and 1 once to the
    count, of each sample from [start] up to but not including
    [start + input_length], and of no other.  That range lies inside the
    buffers and is not empty.  The buffers the loop ends with hold, at
    every sample, the contributions of the whole plan, added in plan
    order. *)
Theorem full_contributions (self : ECGQualityChecker) (signal : ndarray) :
  0 < input_length self -> 0 < stride self ->
  clean_data self = true \/ dtype_of signal = float64 ->
  let sig := cleaned_typed self signal in
  exists plan st,
    window_plan self (data sig) = inr plan
    /\ NoDup plan
    /\ full_loop_typed self signal = inr st
    /\ length (output st) = length (data sig)
    /\ length (win_count st) = length (data sig)
    /\ (forall start, start ∈ plan ->
          start < start + input_length self <= length (data sig))
    /\ (forall st0 start, start ∈ plan ->
          exists st1,
            full_body_typed self sig st0 start = inr st1
            /\ forall i,
                 output st1 !! i
                 = (if covers_full self start i
                    then (fun x => F64.add x (score_at self (data sig) start))
                           <$> output st0 !! i
                    else output st0 !! i)
                 /\ win_count st1 !! i
                    = (if covers_full self start i
                       then (fun x => F64.add x F64.one) <$> win_count st0 !! i
                       else win_count st0 !! i))
    /\ (forall i, i < length (data sig) ->
          output st !! i
          = Some (foldl (fun acc start =>
                           if covers_full self start i
                           then F64.add acc (score_at self (data sig) start)
                           else acc) F64.zero plan)
          /\ win_count st !! i
             = Some (foldl (fun acc start =>
                              if covers_full self start i
                              then F64.add acc F64.one
                              else acc) F64.zero plan)).
Proof.
  intros HL HS Hfloat sig.
  destruct (full_loop_typed_float self signal Hfloat) as (Hdt & Hdata & Hloop).
  fold sig in Hdt, Hdata.
  destruct (full_contributions_float self (data signal) HL HS)
    as (plan & st & Hplan & Hnodup & Hfull & Ho & Hc & Hb & Hstep & Hfold).
  rewrite <- Hdata in Hplan, Ho, Hc, Hb, Hstep, Hfold.
  exists plan, st. do 2 (split; [done|]). split; [by rewrite Hloop|].
  do 3 (split; [done|]). split; [|done].
  intros st0 start Hin. rewrite (full_body_typed_float self sig) by done.
  by apply Hstep.
Qed.

(** X2.  When the stride divides the window length, on a float signal or
    with the cleaner on, intervals mode is full mode read once per
    stride: the value full mode reports for a sample is the value
    intervals mode reports for the interval the sample lies in, for every
    sample below the last whole stride. *)
Theorem full_matches_intervals (self : ECGQualityChecker)
  (signal : ndarray) :
  valid_config self ->
  (stride self | input_length self) ->
  clean_data self = true \/ dtype_of signal = float64 ->
  exists per_sample per_interval,
    process_signal_typed (with_return_type full self) signal = inr per_sample
    /\ process_signal_typed (with_return_type intervals self) signal
       = inr per_interval
    /\ forall i,
         i < length (data (cleaned_typed self signal)) / stride self
             * stride self ->
         is_Some (per_sample !! i)
         /\ per_sample !! i = per_interval !! (i / stride self).
Proof.
  intros Hvalid Hdiv Hfloat.
  destruct (full_loop_typed_float self signal Hfloat) as (_ & Hdata & _).
  rewrite Hdata.
  rewrite (process_signal_typed_float (with_return_type full self) signal)
    by exact Hfloat.
  rewrite (process_signal_typed_float (with_return_type intervals self)
             signal) by exact Hfloat.
  by apply full_matches_intervals_float.
Qed.

End TypedResults.

Lemma full_contributions_witness :
  let c := lab_checker score full TNone in
  let signal := {| dtype_of := float64; data := zigzag 7 |} in
  exists st,
    full_loop_typed (ext:=lab) c signal = inr st
    /\ length (output st) = 7
    /\ output st !! 2 = Some (F64.add (F64.add F64.zero half) half)
    /\ win_count st !! 2 = Some (F64.add (F64.add F64.zero F64.one) F64.one).
Proof.
  destruct (full_contributions (ext:=lab) (lab_checker score full TNone)
              {| dtype_of := float64; data := zigzag 7 |})
    as (plan & st & Hplan & _ & Hloop & Hlen & _ & _ & _ & Hsum).
  - simpl. lia.
  - simpl. lia.
  - by right.
  - exists st. split; [exact Hloop|]. split; [exact Hlen|].
    injection Hplan as <-. exact (Hsum 2 ltac:(simpl; lia)).
Defined.

Lemma full_matches_intervals_witness :
  let c := lab_checker binary_clean full (TList [three_quarters]) in
  let signal := {| dtype_of := float64; data := zigzag 7 |} in
  exists per_sample per_interval,
    process_signal_typed (ext:=lab) (with_return_type full c) signal
    = inr per_sample
    /\ process_signal_typed (ext:=lab) (with_return_type intervals c) signal
       = inr per_interval
    /\ forall i, i < 6 ->
         is_Some (per_sample !! i)
         /\ per_sample !! i = per_interval !! (i / 2).
Proof.
  apply (full_matches_intervals (ext:=lab)
           (lab_checker binary_clean full (TList [three_quarters]))
           {| dtype_of := float64; data := zigzag 7 |}).
  - apply lab_checker_valid. exists three_quarters.
    split; [reflexivity|apply three_quarters_in_unit].
  - exists 2. reflexivity.
  - by right.
Defined.

(** ** Calls on the store *)

Section StoreLoops.

Context `{ext : Externals}.

Lemma accumulate_h_spec (self : ECGQualityChecker) (base : gmap loc ndarray)
  (out cnt : loc) (dt : dtype) (st : buffers) (a b : nat) (s : f64)
  (inv : list (list f64)) :
  out <> cnt ->
  accumulate_h out cnt a b s (buffered self base out cnt dt st)
  = (inr tt, buffered self base out cnt dt (accumulate_typed dt st a b s inv)).
Proof.
  intros Hne. unfold accumulate_h, hbind, load, store, buffered. simpl.
  rewrite lookup_total_insert_ne, lookup_total_insert_eq by done.
  rewrite lookup_total_insert_ne, lookup_total_insert_eq by done.
  unfold assign_slice. simpl. do 2 f_equal.
  rewrite (insert_insert_ne _ out cnt) by done.
  by rewrite !insert_insert_eq.
Qed.


Lemma lookup_total_buffered_base (self : ECGQualityChecker)
  (base : gmap loc ndarray) (sig out cnt : loc) (dt : dtype) (st : buffers)
  (a : ndarray) :
  sig <> out -> sig <> cnt -> base !! sig = Some a ->
  arrays (buffered self base out cnt dt st) !!! sig = a.
Proof.
  intros Ho Hc Ha. unfold buffered. simpl.
  rewrite !lookup_total_insert_ne by done. by apply lookup_total_correct.
Qed.

(** The body of the sample-resolution loop on the store does to the two
    buffers what the body on values does, and changes nothing else. *)
Lemma full_body_h_spec (self : ECGQualityChecker) (base : gmap loc ndarray)
  (sig out cnt : loc) (a : ndarray) (st : buffers) (start : nat) :
  sig <> out -> sig <> cnt -> out <> cnt -> base !! sig = Some a ->
  full_body_h sig out cnt start (buffered self base out cnt (dtype_of a) st)
  = match full_body_typed self a st start with
    | inl e => (inl e, buffered self base out cnt (dtype_of a) st)
    | inr st' => (inr tt, buffered self base out cnt (dtype_of a) st')
    end.
Proof.
  intros Hso Hsc Hoc Ha.
  unfold full_body_h, full_body_typed, hbind, get_attrs, load, lift.
  rewrite (lookup_total_buffered_base _ _ _ _ _ _ _ a) by done.
  change (attrs (buffered self base out cnt (dtype_of a) st)) with self.
  destruct (window_score self _) as [e|[s inv]]; simpl; [done|].
  apply accumulate_h_spec. done.
Qed.

(** The same for the interval-resolution loop, whose buffers are floats. *)
Lemma interval_body_h_spec (self : ECGQualityChecker)
  (base : gmap loc ndarray) (sig out cnt : loc) (a : ndarray) (st : buffers)
  (start : nat) :
  sig <> out -> sig <> cnt -> out <> cnt -> base !! sig = Some a ->
  interval_body_h sig out cnt start (buffered self base out cnt float64 st)
  = match interval_body self (data a) st start with
    | inl e => (inl e, buffered self base out cnt float64 st)
    | inr st' => (inr tt, buffered self base out cnt float64 st')
    end.
Proof.
  intros Hso Hsc Hoc Ha.
  pose proof (lookup_total_buffered_base self base sig out cnt float64 st a
                Hso Hsc Ha) as Hsig.
  unfold interval_body_h, interval_body, hbind, get_attrs, load, lift.
  rewrite Hsig.
  change (attrs (buffered self base out cnt float64 st)) with self.
  destruct (floordiv start (stride self)) as [e|lo]; [done|].
  destruct (floordiv (start + input_length self) (stride self)) as [e|hi];
    [done|].
  cbn [bind].
  destruct (window_score self _) as [e|[s inv]]; [done|].
  cbn [bind ret fst]. rewrite <- accumulate_typed_float.
  apply accumulate_h_spec. done.
Qed.

(** A loop on the store whose body follows a body on values follows the
    loop on values, and stops in the world of the exception if one is
    raised. *)
Lemma hfor_spec (hbody : nat -> Call unit) (pbody : buffers -> nat -> M buffers)
  (W : buffers -> world) (plan : list nat) (st : buffers) :
  (forall st start,
     hbody start (W st)
     = match pbody st start with
       | inl e => (inl e, W st)
       | inr st' => (inr tt, W st')
       end) ->
  exists st',
    hfor hbody plan (W st)
    = (match for_each pbody plan st with
       | inl e => inl e
       | inr _ => inr tt
       end, W st')
    /\ forall st'', for_each pbody plan st = inr st'' -> st' = st''.
Proof.
  intros Hbody. revert st.
  induction plan as [|start plan IH]; intros st; simpl.
  - exists st. split; [done|]. by intros st'' [= <-].
  - unfold hbind. rewrite Hbody.
    destruct (pbody st start) as [e|st1]; simpl.
    + exists st. by split.
    + apply IH.
Qed.

End StoreLoops.

Section StoreCalls.

Context `{ext : Externals}.

Lemma fresh_lookup_None (m : gmap loc ndarray) :
  m !! fresh (dom m) = None.
Proof. apply not_elem_of_dom, is_fresh. Qed.

Lemma fresh_insert_lookup_None (m : gmap loc ndarray) (l : loc)
  (x y : ndarray) :
  (<[l:=y]> m) !! fresh (dom (<[l:=x]> m)) = None.
Proof.
  apply not_elem_of_dom.
  assert (dom (<[l:=y]> m) = dom (<[l:=x]> m)) as ->
    by (by rewrite !dom_insert_L).
  apply is_fresh.
Qed.

Lemma clean_h_spec (w : world) (p : loc) (a : ndarray) :
  arrays w !! p = Some a ->
  exists sig base,
    clean_h p w = (inr sig, {| attrs := attrs w; arrays := base |})
    /\ base !! sig = Some (cleaned_typed (attrs w) a)
    /\ arrays w ⊆ base.
Proof.
  intros Hp. unfold clean_h, hbind, get_attrs, cleaned_typed.
  destruct (clean_data (attrs w)).
  - unfold load, alloc. simpl. rewrite (lookup_total_correct _ _ _ Hp).
    eexists _, _. split; [reflexivity|]. split.
    + by rewrite lookup_insert_eq.
    + apply insert_subseteq, fresh_lookup_None.
  - exists p, (arrays w). split; [by destruct w|]. by split.
Qed.

Lemma buffered_subseteq (self : ECGQualityChecker) (base : gmap loc ndarray)
  (out cnt : loc) (dt : dtype) (st : buffers) :
  base !! out = None ->
  (forall x, (<[out:=x]> base) !! cnt = None) ->
  base ⊆ arrays (buffered self base out cnt dt st).
Proof.
  intros Ho Hc. unfold buffered. simpl.
  etrans; [by apply (insert_subseteq _ out)|]. by apply insert_subseteq.
Qed.

(** After the loop: the two buffers are read, the mapper runs on their
    values and its result goes into a new array. *)
Lemma finish_h_spec (self : ECGQualityChecker) (base : gmap loc ndarray)
  (out cnt : loc) (dt : dtype) (st : buffers) :
  out <> cnt ->
  let w := buffered self base out cnt dt st in
  (run! o := load out in
   run! c := load cnt in
   run! res := lift (_calc_precise_scores self (data o) (data c)) in
   alloc {| dtype_of := float64; data := res |}) w
  = match _calc_precise_scores self (output st) (win_count st) with
    | inl e => (inl e, w)
    | inr res =>
        (inr (fresh (dom (arrays w))),
         {| attrs := self;
            arrays := <[fresh (dom (arrays w))
                        := {| dtype_of := float64; data := res |}]>
                        (arrays w) |})
    end.
Proof.
  intros Hne w. subst w. unfold hbind, load, lift, alloc, buffered. simpl.
  rewrite lookup_total_insert_ne, lookup_total_insert_eq by done.
  rewrite lookup_total_insert_eq. simpl.
  by destruct (_calc_precise_scores self (output st) (win_count st)).
Qed.

(** From the world of the buffers to the end of the call. *)
Lemma loop_and_finish_spec (w : world) (base : gmap loc ndarray)
  (out cnt : loc) (dt : dtype) (init : buffers)
  (hbody : nat -> Call unit) (pbody : buffers -> nat -> M buffers)
  (plan : list nat) :
  arrays w ⊆ base ->
  base !! out = None ->
  (forall x, (<[out:=x]> base) !! cnt = None) ->
  (forall st start,
     hbody start (buffered (attrs w) base out cnt dt st)
     = match pbody st start with
       | inl e => (inl e, buffered (attrs w) base out cnt dt st)
       | inr st' => (inr tt, buffered (attrs w) base out cnt dt st')
       end) ->
  call_spec w
    (let! st := for_each pbody plan init in
     _calc_precise_scores (attrs w) (output st) (win_count st))
    ((run! _u := hfor hbody plan in
      run! o := load out in
      run! c := load cnt in
      run! res := lift (_calc_precise_scores (attrs w) (data o) (data c)) in
      alloc {| dtype_of := float64; data := res |})
       (buffered (attrs w) base out cnt dt init)).
Proof.
  intros Hsub Ho Hc Hbody.
  assert (out <> cnt) as Hne.
  { intros ->. specialize (Hc {| dtype_of := dt; data := [] |}).
    by rewrite lookup_insert_eq in Hc. }
  destruct (hfor_spec hbody pbody (buffered (attrs w) base out cnt dt)
              plan init Hbody) as (st' & Hfor & Hst').
  unfold hbind at 1. rewrite Hfor.
  assert (arrays w ⊆ arrays (buffered (attrs w) base out cnt dt st'))
    as Hframe.
  { etrans; [exact Hsub|]. by apply buffered_subseteq. }
  destruct (for_each pbody plan init) as [e|st]; simpl.
  - by repeat split.
  - rewrite (Hst' st eq_refl).
    rewrite (finish_h_spec (attrs w) base out cnt dt st Hne).
    destruct (_calc_precise_scores (attrs w) (output st) (win_count st))
      as [e|res]; simpl.
    + repeat split; try done. by rewrite <- (Hst' st eq_refl).
    + rewrite <- (Hst' st eq_refl) in *.
      set (m := arrays (buffered (attrs w) base out cnt dt st')) in *.
      split; [done|]. split.
      * etrans; [exact Hframe|]. apply insert_subseteq, fresh_lookup_None.
      * exists (fresh (dom m)). split; [done|]. split.
        -- eapply lookup_weaken_None; [apply fresh_lookup_None|exact Hframe].
        -- simpl. by rewrite lookup_insert_eq.
Qed.

End StoreCalls.

Section StoreMethods.

Context `{ext : Externals}.

Lemma hbind_inr {A B} (m : Call A) (k : A -> Call B) (w w' : world) (a : A) :
  m w = (inr a, w') -> hbind m k w = k a w'.
Proof. intros Hm. unfold hbind. by rewrite Hm. Qed.

Lemma hbind_lift_inr {A B} (a : A) (k : A -> Call B) (w : world) :
  hbind (lift (inr a)) k w = k a w.
Proof. reflexivity. Qed.

Lemma hbind_lift_inl {A B} (e : exn) (k : A -> Call B) (w : world) :
  hbind (lift (inl e)) k w = (inl e, w).
Proof. reflexivity. Qed.

Lemma load_lookup (w : world) (l : loc) (a : ndarray) :
  arrays w !! l = Some a -> load l w = (inr a, w).
Proof. intros Hl. unfold load. by rewrite (lookup_total_correct _ _ _ Hl). Qed.

Lemma data_cleaned_typed (self : ECGQualityChecker) (a : ndarray) :
  data (cleaned_typed self a) = cleaned self (data a).
Proof. unfold cleaned_typed, cleaned. by destruct (clean_data self). Qed.

(** The names of a call are distinct locations: the signal was there
    before the buffers, and the second buffer came after the first. *)
Lemma buffers_apart (base : gmap loc ndarray) (sig out cnt : loc)
  (a : ndarray) :
  base !! sig = Some a ->
  base !! out = None ->
  (forall x, (<[out:=x]> base) !! cnt = None) ->
  sig <> out /\ sig <> cnt /\ out <> cnt.
Proof.
  intros Hs Ho Hc. split; [congruence|]. split.
  - intros <-. specialize (Hc a). rewrite lookup_insert_ne in Hc; congruence.
  - intros <-. specialize (Hc a). by rewrite lookup_insert_eq in Hc.
Qed.

Lemma process_signal_full_h_spec (w : world) (p : loc) (a : ndarray) :
  arrays w !! p = Some a ->
  call_spec w
    (let! st := full_loop_typed (attrs w) a in
     _calc_precise_scores (attrs w) (output st) (win_count st))
    (_process_signal_full_h p w).
Proof.
  intros Hp.
  destruct (clean_h_spec w p a Hp) as (sig & base & Hclean & Hsig & Hsub).
  set (A := cleaned_typed (attrs w) a) in *.
  set (out := fresh (dom base)).
  set (cnt := fresh (dom (<[out := zeros_like A]> base))).
  assert (base !! out = None) as Ho by apply fresh_lookup_None.
  assert (forall x, (<[out:=x]> base) !! cnt = None) as Hc
    by (intros x; apply fresh_insert_lookup_None).
  destruct (buffers_apart base sig out cnt A Hsig Ho Hc) as (Hso & Hsc & Hoc).
  unfold _process_signal_full_h.
  rewrite (hbind_inr _ _ _ _ _ Hclean).
  rewrite (hbind_inr (load sig) _ _ _ A (load_lookup {| attrs := attrs w; arrays := base |} sig A Hsig)).
  rewrite (hbind_inr (alloc (zeros_like A)) _
             {| attrs := attrs w; arrays := base |}
             {| attrs := attrs w; arrays := <[out := zeros_like A]> base |}
             out eq_refl).
  rewrite (hbind_inr (alloc (zeros_like A)) _
             {| attrs := attrs w; arrays := <[out := zeros_like A]> base |}
             (buffered (attrs w) base out cnt (dtype_of A)
                (initial_buffers (length (data A))))
             cnt eq_refl).
  rewrite (hbind_inr get_attrs _
             (buffered (attrs w) base out cnt (dtype_of A)
                (initial_buffers (length (data A)))) _ (attrs w) eq_refl).
  unfold full_loop_typed. fold A.
  destruct (window_plan (attrs w) (data A)) as [e|plan] eqn:Hplan.
  - rewrite hbind_lift_inl.
    split; [done|]. split; [|done].
    etrans; [exact Hsub|]. by apply buffered_subseteq.
  - rewrite hbind_lift_inr.
    apply (loop_and_finish_spec w base out cnt (dtype_of A)
             (initial_buffers (length (data A)))
             (full_body_h sig out cnt) (full_body_typed (attrs w) A) plan
             Hsub Ho Hc).
    intros st start. by apply full_body_h_spec.
Qed.

Lemma process_signal_interval_h_spec (w : world) (p : loc) (a : ndarray) :
  arrays w !! p = Some a ->
  call_spec w (_process_signal_interval (attrs w) (data a))
    (_process_signal_interval_h p w).
Proof.
  intros Hp.
  destruct (clean_h_spec w p a Hp) as (sig & base & Hclean & Hsig & Hsub).
  set (A := cleaned_typed (attrs w) a) in *.
  unfold _process_signal_interval_h, _process_signal_interval, interval_loop.
  rewrite <- (data_cleaned_typed (attrs w) a). fold A.
  rewrite (hbind_inr _ _ _ _ _ Hclean).
  rewrite (hbind_inr (load sig) _ _ _ A (load_lookup {| attrs := attrs w; arrays := base |} sig A Hsig)).
  rewrite (hbind_inr get_attrs _ {| attrs := attrs w; arrays := base |} _
             (attrs w) eq_refl).
  destruct (floordiv (length (data A)) (stride (attrs w))) as [e|n] eqn:Hn.
  { rewrite hbind_lift_inl.
    by repeat split. }
  rewrite hbind_lift_inr.
  set (zeros := {| dtype_of := float64; data := Np.zeros n |}).
  set (out := fresh (dom base)).
  set (cnt := fresh (dom (<[out := zeros]> base))).
  assert (base !! out = None) as Ho by apply fresh_lookup_None.
  assert (forall x, (<[out:=x]> base) !! cnt = None) as Hc
    by (intros x; apply fresh_insert_lookup_None).
  destruct (buffers_apart base sig out cnt A Hsig Ho Hc) as (Hso & Hsc & Hoc).
  rewrite (hbind_inr (alloc zeros) _
             {| attrs := attrs w; arrays := base |}
             {| attrs := attrs w; arrays := <[out := zeros]> base |}
             out eq_refl).
  rewrite hbind_lift_inr.
  rewrite (hbind_inr (alloc zeros) _
             {| attrs := attrs w; arrays := <[out := zeros]> base |}
             (buffered (attrs w) base out cnt float64 (initial_buffers n))
             cnt eq_refl).
  simpl.
  destruct (window_plan (attrs w) (data A)) as [e|plan] eqn:Hplan.
  - rewrite hbind_lift_inl.
    split; [done|]. split; [|done].
    etrans; [exact Hsub|]. by apply buffered_subseteq.
  - rewrite hbind_lift_inr.
    apply (loop_and_finish_spec w base out cnt float64 (initial_buffers n)
             (interval_body_h sig out cnt) (interval_body (attrs w) (data A))
             plan Hsub Ho Hc).
    intros st start. by apply interval_body_h_spec.
Qed.

(** A call of [process_signal] on the store follows [process_signal_typed]
    on the array the caller's name holds. *)
Lemma process_signal_h_spec (w : world) (p : loc) (a : ndarray) :
  arrays w !! p = Some a ->
  call_spec w (process_signal_typed (attrs w) a) (process_signal_h p w).
Proof.
  intros Hp. unfold process_signal_h, process_signal_typed.
  rewrite (hbind_inr get_attrs _ w _ (attrs w) eq_refl).
  destruct (return_type (attrs w)).
  - by apply process_signal_full_h_spec.
  - by apply process_signal_interval_h_spec.
Qed.

End StoreMethods.

Section Repeat.

Context `{ext : Externals}.

(** C9.  Two calls of [process_signal] in a row on the signal a name
    holds.  Neither call changes an attribute of the object, nor any array
    that was in the store before it, the signal included.  With the
    network and the cleaner functions of their arguments, both calls raise
    the same exception or each returns a new array of its own, and the
    two arrays hold the same values: those [process_signal_typed] computes
    from the attributes and the signal. *)
Theorem process_signal_repeatable (w : world) (p : loc) (signal : ndarray) :
  arrays w !! p = Some signal ->
  let '(first, w1) := process_signal_h p w in
  let '(second, w2) := process_signal_h p w1 in
  attrs w1 = attrs w /\ attrs w2 = attrs w
  /\ arrays w ⊆ arrays w1 /\ arrays w1 ⊆ arrays w2
  /\ arrays w2 !! p = Some signal
  /\ match process_signal_typed (attrs w) signal with
     | inl e => first = inl e /\ second = inl e
     | inr res =>
         exists r1 r2,
           first = inr r1 /\ second = inr r2 /\ r1 <> r2
           /\ arrays w2 !! r1 = Some {| dtype_of := float64; data := res |}
           /\ arrays w2 !! r2 = Some {| dtype_of := float64; data := res |}
     end.
Proof.
  intros Hp.
  pose proof (process_signal_h_spec w p signal Hp) as H1.
  destruct (process_signal_h p w) as [first w1].
  destruct H1 as (Ha1 & Hs1 & H1). simpl in Ha1, Hs1, H1.
  assert (arrays w1 !! p = Some signal) as Hp1
    by (by apply (lookup_weaken (arrays w))).
  pose proof (process_signal_h_spec w1 p signal Hp1) as H2.
  destruct (process_signal_h p w1) as [second w2].
  destruct H2 as (Ha2 & Hs2 & H2). simpl in Ha2, Hs2, H2.
  rewrite Ha1 in H2.
  split; [exact Ha1|]. split; [congruence|]. split; [exact Hs1|].
  split; [exact Hs2|]. split; [by apply (lookup_weaken (arrays w1))|].
  destruct (process_signal_typed (attrs w) signal) as [e|res].
  - by split.
  - destruct H1 as (r1 & -> & Hnew1 & Hres1).
    destruct H2 as (r2 & -> & Hnew2 & Hres2).
    exists r1, r2. split; [done|]. split; [done|]. split; [congruence|].
    split; [by apply (lookup_weaken (arrays w1))|exact Hres2].
Qed.

End Repeat.

Lemma process_signal_repeatable_witness :
  let c := lab_checker binary_clean full (TList [three_quarters]) in
  let signal := {| dtype_of := float64; data := zigzag 7 |} in
  let w := {| attrs := c; arrays := {[ 5 := signal ]} |} in
  let categories :=
    {| dtype_of := float64;
       data := [F64.one; F64.one; F64.one; F64.one; F64.one; F64.one;
                F64.two] |} in
  exists r1 r2 w1 w2,
    process_signal_h (ext:=lab) 5 w = (inr r1, w1)
    /\ process_signal_h (ext:=lab) 5 w1 = (inr r2, w2)
    /\ attrs w1 = c /\ attrs w2 = c
    /\ arrays w2 !! 5 = Some signal
    /\ r1 <> r2
    /\ arrays w2 !! r1 = Some categories
    /\ arrays w2 !! r2 = Some categories.
Proof.
  intros c signal w categories.
  pose proof (process_signal_repeatable (ext:=lab) w 5 signal
                (lookup_singleton_eq 5 signal)) as Hcalls.
  destruct (process_signal_h (ext:=lab) 5 w) as [first w1] eqn:Hfirst.
  destruct (process_signal_h (ext:=lab) 5 w1) as [second w2] eqn:Hsecond.
  destruct Hcalls as (Ha1 & Ha2 & _ & _ & Hp & Hres).
  change (process_signal_typed (ext:=lab) (attrs w) signal)
    with (inr (B:=list f64) (A:=exn) (data categories)) in Hres.
  destruct Hres as (r1 & r2 & -> & -> & Hne & Hr1 & Hr2).
  exists r1, r2, w1, w2.
  split; [reflexivity|]. split; [exact Hsecond|].
  split; [exact Ha1|]. split; [exact Ha2|]. split; [exact Hp|].
  split; [exact Hne|]. split; [exact Hr1|exact Hr2].
Defined.

(** ** A signal of an integer dtype *)

Section IntegerSignal.

Context `{ext : Externals}.

Lemma int_cast_drops_fraction : drops_fraction int_cast.
Proof.
  intros x Hx0 Hx1. unfold int_cast, F64.zero.
  destruct x as [a b]. unfold Qle, Qlt in *. simpl in *.
  rewrite Z.quot_small by lia. reflexivity.
Qed.

(** A buffer of zeros of an integer dtype is still one after a grade
    below 1 has been added to it. *)
Lemma cast_add_grade (cast : f64 -> f64) (n : nat) (q : Q) :
  drops_fraction cast -> (0 <= q)%Q -> (q < 1)%Q ->
  cast <$> Np.add_scalar (Np.zeros n) (Fin q) = Np.zeros n.
Proof.
  intros Hcast Hq0 Hq1. unfold Np.add_scalar, Np.zeros.
  rewrite !fmap_replicate. f_equal. apply Hcast; lra.
Qed.

Lemma slice_zeros (n i j : nat) :
  Np.slice (Np.zeros n) i j = Np.zeros (length (Np.slice (Np.zeros n) i j)).
Proof.
  unfold Np.slice, Np.zeros.
  rewrite drop_replicate, take_replicate. by rewrite length_replicate.
Qed.

Lemma set_slice_zeros (n i j : nat) :
  Np.set_slice (Np.zeros n) i j (Np.slice (Np.zeros n) i j) = Np.zeros n.
Proof.
  unfold Np.set_slice, Np.slice, Np.zeros.
  rewrite drop_replicate, !take_replicate, length_replicate.
  rewrite drop_replicate. rewrite <- !replicate_add. f_equal. lia.
Qed.

(** One window on buffers of an integer dtype whose sums are all 0: the
    two networks leave the same buffers, and the sums are all 0 again. *)
Lemma full_body_typed_network (self : ECGQualityChecker)
  (net : list f64 -> f64) (cast : f64 -> f64) (samples : list f64)
  (st : buffers) (start : nat) :
  drops_fraction cast ->
  grades_below_one (process_ecg (model self)) ->
  grades_below_one net ->
  never_too_small self samples ->
  start + input_length self <= length samples ->
  output st = Np.zeros (length (output st)) ->
  let signal := {| dtype_of := other cast; data := samples |} in
  full_body_typed (with_network net self) signal st start
  = full_body_typed self signal st start
  /\ forall st', full_body_typed self signal st start = inr st' ->
       output st' = Np.zeros (length (output st')).
Proof.
  intros Hcast Hself Hnet Hwide Hstart Hout signal.
  unfold full_body_typed, window_score.
  change (_check_window_smaller (with_network net self))
    with (_check_window_smaller self).
  change (input_length (with_network net self)) with (input_length self).
  pose proof (Hwide start Hstart) as Hcheck.
  set (window := Np.slice (data signal) start (start + input_length self)).
  change (Np.slice samples start (start + input_length self)) with window
    in Hcheck.
  destruct (_check_window_smaller self window) as [e|[|]]; [by split|done|].
  cbn [bind ret].
  destruct (Hself window) as (q1 & Hq1 & Hq1lo & Hq1hi).
  destruct (Hnet window) as (q2 & Hq2 & Hq2lo & Hq2hi).
  cbn [process_ecg model with_network]. rewrite Hq1, Hq2.
  unfold accumulate_typed. cbn [astype].
  rewrite Hout, slice_zeros, !cast_add_grade by done.
  split; [done|]. intros st' [= <-]. cbn [output].
  rewrite <- slice_zeros, set_slice_zeros.
  unfold Np.zeros. by rewrite length_replicate.
Qed.

Lemma full_loop_typed_network (self : ECGQualityChecker)
  (net : list f64 -> f64) (cast : f64 -> f64) (samples : list f64)
  (plan : list nat) (st : buffers) :
  drops_fraction cast ->
  grades_below_one (process_ecg (model self)) ->
  grades_below_one net ->
  never_too_small self samples ->
  (forall start, start ∈ plan ->
     start + input_length self <= length samples) ->
  output st = Np.zeros (length (output st)) ->
  let signal := {| dtype_of := other cast; data := samples |} in
  for_each (full_body_typed (with_network net self) signal) plan st
  = for_each (full_body_typed self signal) plan st.
Proof.
  intros Hcast Hself Hnet Hwide Hplan Hout signal. revert st Hout.
  induction plan as [|start plan IH]; intros st Hout; [done|].
  cbn [for_each].
  destruct (full_body_typed_network self net cast samples st start
              Hcast Hself Hnet Hwide (Hplan start ltac:(left)) Hout)
    as (Hsame & Hzeros).
  fold signal in Hsame, Hzeros. rewrite Hsame.
  destruct (full_body_typed self signal st start) as [e|st']; [done|].
  cbn [bind]. apply IH; [|by apply Hzeros].
  intros start' Hin. apply Hplan. by right.
Qed.

(** X15.  Full mode on a signal of an integer dtype with the cleaner off.
    The buffers take the dtype of the signal, so a grade from 0 up to but
    not including 1 that is added to a sum of 0 is stored as 0: when no
    window is found too small, the result is the same whatever the
    network answers. *)
Theorem integer_signal_discards_grades (self : ECGQualityChecker)
  (net : list f64 -> f64) (cast : f64 -> f64) (samples : list f64) :
  clean_data self = false ->
  return_type self = full ->
  drops_fraction cast ->
  grades_below_one (process_ecg (model self)) ->
  grades_below_one net ->
  never_too_small self samples ->
  process_signal_typed (with_network net self)
    {| dtype_of := other cast; data := samples |}
  = process_signal_typed self {| dtype_of := other cast; data := samples |}.
Proof.
  intros Hclean Hfull Hcast Hself Hnet Hwide.
  unfold process_signal_typed.
  change (return_type (with_network net self)) with (return_type self).
  rewrite Hfull. unfold full_loop_typed, cleaned_typed.
  change (clean_data (with_network net self)) with (clean_data self).
  rewrite Hclean.
  change (window_plan (with_network net self)) with (window_plan self).
  destruct (window_plan self _) as [e|plan] eqn:Hplan; [done|]. cbn [bind].
  rewrite (full_loop_typed_network self net cast samples plan _
             Hcast Hself Hnet Hwide); [done| |].
  - intros start Hin. by apply (window_plan_in_bounds self samples plan).
  - cbn [output zeros_like data]. unfold Np.zeros.
    by rewrite length_replicate.
Qed.

End IntegerSignal.

Lemma zigzag_never_too_small (mode : ReturnMode) (rtype : ReturnType)
  (th : thresholds_arg) :
  never_too_small (lab_checker mode rtype th) (zigzag 7).
Proof.
  intros start Hstart.
  do 4 (destruct start as [|start]; [by vm_compute|]).
  simpl in Hstart. lia.
Qed.

Lemma integer_signal_discards_grades_witness :
  let c := lab_checker binary_clean full (TList [tenth]) in
  let integers := {| dtype_of := other int_cast; data := zigzag 7 |} in
  let floats := {| dtype_of := float64; data := zigzag 7 |} in
  process_signal_typed (ext:=lab) (with_network (fun _ => three_quarters) c)
    integers
  = process_signal_typed (ext:=lab) c integers
  /\ process_signal_typed (ext:=lab) c integers
     = inr [F64.one; F64.one; F64.one; F64.one; F64.one; F64.one; F64.two]
  /\ process_signal_typed (ext:=lab) c floats
     = inr [F64.two; F64.two; F64.two; F64.two; F64.two; F64.two; F64.two].
Proof.
  split; [|split; reflexivity].
  apply (integer_signal_discards_grades (ext:=lab)
           (lab_checker binary_clean full (TList [tenth]))
           (fun _ => three_quarters) int_cast (zigzag 7)).
  - reflexivity.
  - reflexivity.
  - apply int_cast_drops_fraction.
  - intros window. exists (1 # 2)%Q. split; [reflexivity|]. split; lra.
  - intros window. exists (3 # 4)%Q. split; [reflexivity|]. split; lra.
  - apply zigzag_never_too_small.
Defined.
